(** * English-Teacher: the Tutor component (src/app/tutor/tutor.ts)

    A shallow embedding of the conversation engine of the Tutor component:
    the rule-based assessment functions (grammar correction, pronunciation
    score), the response generator, and the conversation store with its
    bounded history.  Methods of the component are functions in a small
    state-and-exception monad over the component's fields and the browser
    objects it talks to (localStorage, the clock, Math.random, the speech
    devices). *)

From Stdlib Require Import List NArith ZArith String Ascii Bool Lia.
From Stdlib Require DecimalString.
Import ListNotations.

Set Implicit Arguments.
Local Open Scope N_scope.

(* ===================================================================== *)
(** * JavaScript strings *)
(* ===================================================================== *)

(** A JavaScript string is a sequence of UTF-16 code units. *)
Definition jsstring := list N.

(** String literals of the source (all of them ASCII but one dash). *)
Definition js (s : string) : jsstring :=
  List.map N_of_ascii (list_ascii_of_string s).

Fixpoint streq (a b : jsstring) : bool :=
  match a, b with
  | [], [] => true
  | x :: a', y :: b' => N.eqb x y && streq a' b'
  | _, _ => false
  end.

Definition between (lo hi c : N) : bool := N.leb lo c && N.leb c hi.

(** ECMAScript WhiteSpace and LineTerminator code points: what
    [String.prototype.trim] strips and what the class [\s] matches. *)
Definition isWhiteSpace (c : N) : bool :=
  between 9 13 c || N.eqb c 32 || N.eqb c 160 || N.eqb c 5760
  || between 8192 8202 c || N.eqb c 8232 || N.eqb c 8233
  || N.eqb c 8239 || N.eqb c 8287 || N.eqb c 12288 || N.eqb c 65279.

(** The class [\w] of a regular expression without the [u] flag. *)
Definition isWordChar (c : N) : bool :=
  between 97 122 c || between 65 90 c || between 48 57 c || N.eqb c 95.

(** [String.prototype.toLowerCase], one code unit at a time.  The
    assessment methods only ever look at the lowered text through ASCII
    patterns, [\s] and [\b], so the mapping is written out where it can
    produce or consume such a unit: A-Z, U+0130 (lowered to "i" followed by
    U+0307) and U+212A (the Kelvin sign, lowered to "k").  Every other unit
    above U+007F is lowered by Unicode to units that are again above U+007F
    and are white space exactly when the original is; it is kept as it is.
    The mapping is therefore exact on strings of ASCII units, and on any
    string as far as its ASCII substrings go; it is not the Unicode mapping
    where two lowered strings of other cased letters are compared with each
    other, as [filterHistory] does (see [ascii]). *)
Definition lowerUnit (c : N) : list N :=
  if between 65 90 c then [c + 32]
  else if N.eqb c 304 then [105; 775]
  else if N.eqb c 8490 then [107]
  else [c].

Definition toLowerCase (s : jsstring) : jsstring := flat_map lowerUnit s.

(** The strings of ASCII units, on which [toLowerCase] is the mapping of
    the language itself. *)
Definition ascii (s : jsstring) : bool := forallb (fun c => N.ltb c 128) s.

Fixpoint trimStart (s : jsstring) : jsstring :=
  match s with
  | c :: s' => if isWhiteSpace c then trimStart s' else s
  | [] => []
  end.

Definition trimEnd (s : jsstring) : jsstring := rev (trimStart (rev s)).

Definition trim (s : jsstring) : jsstring := trimEnd (trimStart s).

Fixpoint startsWith (s pat : jsstring) : bool :=
  match pat, s with
  | [], _ => true
  | p :: pat', c :: s' => N.eqb p c && startsWith s' pat'
  | _ :: _, [] => false
  end.

(** [s.includes(pat)]: [pat] occurs somewhere in [s]. *)
Fixpoint includes (s pat : jsstring) : bool :=
  startsWith s pat
  || match s with
     | [] => false
     | _ :: s' => includes s' pat
     end.

(** [s.split(sep)] for a string separator: [skip] counts the units of the
    separator still to be passed over, [cur] is the piece being collected
    (reversed). *)
Fixpoint splitAt (sep : jsstring) (s : jsstring) (skip : nat) (cur : jsstring)
  : list jsstring :=
  match s with
  | [] => [rev cur]
  | c :: s' =>
      match skip with
      | S k => splitAt sep s' k cur
      | O =>
          if startsWith s sep
          then rev cur :: splitAt sep s' (List.length sep - 1)%nat []
          else splitAt sep s' 0 (c :: cur)
      end
  end.

Definition split (s sep : jsstring) : list jsstring :=
  match sep with
  | [] => List.map (fun c => [c]) s
  | _ :: _ => splitAt sep s 0 []
  end.

(* ===================================================================== *)
(** * Regular expressions *)
(* ===================================================================== *)

(** The regular expressions of the source are written with backtracking
    matcher combinators.  A continuation receives the code unit before the
    current position (for [\b]) and the rest of the input, and answers with
    what is left after the whole match. *)
Module Regex.

Definition cont := option N -> jsstring -> option jsstring.
Definition matcher := cont -> cont.

(** Canonicalize of a regular expression with the [i] flag and without
    the [u] flag: upper-casing, except that a unit above U+007F is never
    turned into an ASCII one.  The patterns are ASCII, so only the ASCII
    part of the mapping can make two units agree. *)
Definition canonicalize (c : N) : N :=
  if between 97 122 c then c - 32 else c.

(** A literal character under the [i] flag. *)
Definition chr (c : N) : matcher := fun k _ s =>
  match s with
  | x :: s' => if N.eqb (canonicalize x) (canonicalize c) then k (Some x) s' else None
  | [] => None
  end.

(** A character class such as [\s] and [\w]. *)
Definition cls (p : N -> bool) : matcher := fun k _ s =>
  match s with
  | x :: s' => if p x then k (Some x) s' else None
  | [] => None
  end.

Definition eps : matcher := fun k => k.

Definition seq (m1 m2 : matcher) : matcher := fun k => m1 (m2 k).

Definition alt (m1 m2 : matcher) : matcher := fun k prev s =>
  match m1 k prev s with
  | Some r => Some r
  | None => m2 k prev s
  end.

Definition isWordAt (c : option N) : bool :=
  match c with
  | Some x => isWordChar x
  | None => false
  end.

(** The assertion [\b]. *)
Definition wordb : matcher := fun k prev s =>
  if xorb (isWordAt prev) (isWordAt (hd_error s)) then k prev s else None.

(** Greedy [p*] on a class: as many units as possible first, one less on
    backtracking. *)
Fixpoint star (p : N -> bool) (k : cont) (prev : option N) (s : jsstring)
  : option jsstring :=
  match s with
  | x :: s' =>
      if p x
      then match star p k (Some x) s' with
           | Some r => Some r
           | None => k prev s
           end
      else k prev s
  | [] => k prev s
  end.

Definition plus (p : N -> bool) : matcher := seq (cls p) (star p).

(** [p{n,}] *)
Fixpoint atLeast (n : nat) (p : N -> bool) : matcher :=
  match n with
  | O => star p
  | S n' => seq (cls p) (atLeast n' p)
  end.

(** A literal word. *)
Fixpoint lit (w : jsstring) : matcher :=
  match w with
  | [] => eps
  | c :: w' => seq (chr c) (lit w')
  end.

(** One attempt at the current position: the rest after the match. *)
Definition matchHere (m : matcher) (prev : option N) (s : jsstring)
  : option jsstring :=
  m (fun _ r => Some r) prev s.

(** [re.test(s)] without the [g] flag: some position matches. *)
Fixpoint search (m : matcher) (prev : option N) (s : jsstring) : bool :=
  match matchHere m prev s with
  | Some _ => true
  | None =>
      match s with
      | [] => false
      | x :: s' => search m (Some x) s'
      end
  end.

Definition test (m : matcher) (s : jsstring) : bool := search m None s.

(** [s.match(re)] with the [g] flag: the matches from left to right, each
    search starting where the last match ended (one unit further after an
    empty match).  [skip] counts the units of the last match still to be
    passed over. *)
Fixpoint matchesFrom (m : matcher) (prev : option N) (s : jsstring)
  (skip : nat) : list jsstring :=
  match s with
  | [] =>
      match skip, matchHere m prev [] with
      | O, Some _ => [[]]
      | _, _ => []
      end
  | x :: s' =>
      match skip with
      | S k => matchesFrom m (Some x) s' k
      | O =>
          match matchHere m prev s with
          | Some r =>
              let n := (List.length s - List.length r)%nat in
              firstn n s :: matchesFrom m (Some x) s' (n - 1)%nat
          | None => matchesFrom m (Some x) s' 0
          end
      end
  end.

(** The result of [s.match(re)]: null when nothing matches. *)
Definition matchAll (m : matcher) (s : jsstring) : option (list jsstring) :=
  match matchesFrom m None s 0 with
  | [] => None
  | l => Some l
  end.

(** [s.split(re)] for a non-empty [s] and an expression without groups.
    A match that is empty at the start of the current piece does not
    split. *)
Fixpoint splitFrom (m : matcher) (prev : option N) (s : jsstring)
  (skip : nat) (cur : jsstring) : list jsstring :=
  match s with
  | [] => [rev cur]
  | x :: s' =>
      match skip with
      | S k => splitFrom m (Some x) s' k cur
      | O =>
          match matchHere m prev s with
          | Some r =>
              let n := (List.length s - List.length r)%nat in
              match n, cur with
              | O, [] => splitFrom m (Some x) s' 0 [x]
              | O, _ :: _ => rev cur :: splitFrom m (Some x) s' 0 [x]
              | S k, _ => rev cur :: splitFrom m (Some x) s' k []
              end
          | None => splitFrom m (Some x) s' 0 (x :: cur)
          end
      end
  end.

Definition split (s : jsstring) (m : matcher) : list jsstring :=
  match s with
  | [] =>
      match matchHere m None [] with
      | Some _ => []
      | None => [[]]
      end
  | _ :: _ => splitFrom m None s 0 []
  end.

End Regex.

(** [/\s+/] *)
Definition re_spaces : Regex.matcher := Regex.plus isWhiteSpace.

(** [/\b\w{8,}\b/g] *)
Definition re_complexWord : Regex.matcher :=
  Regex.seq Regex.wordb (Regex.seq (Regex.atLeast 8 isWordChar) Regex.wordb).

(** [/\b(i|you|we|they)\s+goes\b/i] *)
Definition re_plural_goes : Regex.matcher :=
  Regex.seq Regex.wordb
    (Regex.seq
       (Regex.alt (Regex.lit (js "i"))
          (Regex.alt (Regex.lit (js "you"))
             (Regex.alt (Regex.lit (js "we")) (Regex.lit (js "they")))))
       (Regex.seq (Regex.plus isWhiteSpace)
          (Regex.seq (Regex.lit (js "goes")) Regex.wordb))).

(** [/\b(he|she|it)\s+go\b/i] *)
Definition re_singular_go : Regex.matcher :=
  Regex.seq Regex.wordb
    (Regex.seq
       (Regex.alt (Regex.lit (js "he"))
          (Regex.alt (Regex.lit (js "she")) (Regex.lit (js "it"))))
       (Regex.seq (Regex.plus isWhiteSpace)
          (Regex.seq (Regex.lit (js "go")) Regex.wordb))).

(* ===================================================================== *)
(** * Data model *)
(* ===================================================================== *)

(** The [type] of a message. *)
Inductive Role := user | ai.

(** Identifiers are the decimal strings of a clock reading and time stamps
    its ISO rendering: both are kept as the reading itself (milliseconds).
    Fields an AI message does not have, and fields holding null, are
    [None]. *)
Record Message := mkMessage {
  m_id : N;
  type : Role;
  text : jsstring;
  timestamp : N;
  correction : option jsstring;
  pronunciationScore : option Z;
  pronunciationFeedback : option jsstring;
  audioUrl : option jsstring
}.

(** A captured recording: its object URL and the Blob, which JSON does not
    keep. *)
Record AudioRecording := mkAudioRecording {
  url : jsstring;
  blob : option N
}.

Record Conversation := mkConversation {
  c_id : N;
  startTime : N;
  endTime : option N;
  topic : jsstring;
  difficulty : jsstring;
  messages : list Message;
  audioRecordings : list AudioRecording
}.

Definition with_endTime (c : Conversation) (t : option N) : Conversation :=
  mkConversation (c_id c) (startTime c) t (topic c) (difficulty c)
    (messages c) (audioRecordings c).

Definition with_messages (c : Conversation) (ms : list Message) : Conversation :=
  mkConversation (c_id c) (startTime c) (endTime c) (topic c) (difficulty c)
    ms (audioRecordings c).

Inductive Mode := conversation | history.

(** The speech devices, as far as the component looks at them. *)
Record SpeechSynthesis := mkSynthesis {
  speaking : bool;
  utterances : list jsstring
}.

Inductive RecorderState := inactive | recording.

(** The fields of the component. *)
Record Tutor := mkTutor {
  currentMode : Mode;
  isListening : bool;
  isSpeaking : bool;
  isConversationActive : bool;
  conversationStatus : jsstring;
  currentConversation : option Conversation;
  conversationHistory : list Conversation;
  filteredHistory : list Conversation;
  selectedHistoryConversation : option Conversation;
  searchQuery : jsstring;
  selectedTopic : jsstring;
  errorMessage : jsstring;
  successMessage : jsstring;
  recognition : option bool;            (* the recognizer and whether it runs *)
  synthesis : option SpeechSynthesis;
  mediaRecorder : option RecorderState
}.

(** A string held by localStorage, seen through [JSON.parse]: the empty
    string, a non-empty string [JSON.parse] rejects, or the text
    [JSON.stringify] writes for a value. *)
Inductive item (A : Type) :=
| Empty
| Garbled
| Json (a : A).
Arguments Empty {A}.
Arguments Garbled {A}.

(** The two keys the component uses. *)
Record Storage := mkStorage {
  key_conversationHistory : option (item (list Conversation));
  key_currentConversation : option (item Conversation)
}.

(** Callbacks handed to [setTimeout]. *)
Inductive Callback := ClearErrorMessage | ClearSuccessMessage.

(** The component together with the browser around it.  The clock, the
    random source and the store's willingness to take a write are oracles,
    read in order. *)
Record World := mkWorld {
  self : Tutor;
  localStorage : Storage;
  quotaExceeded : nat -> bool;   (* does the n-th [setItem] throw? *)
  writes : nat;
  clock : nat -> N;              (* the n-th reading of the clock *)
  ticks : nat;
  random : nat -> N;             (* the n-th draw, as a numerator over 2^53 *)
  draws : nat;
  console : list (jsstring * jsstring);
  timers : list (N * Callback)
}.

(* ===================================================================== *)
(** * The monad of methods: state and exceptions *)
(* ===================================================================== *)

Inductive completion (A : Type) :=
| Normal (a : A)
| Throw (message : jsstring).
Arguments Throw {A}.

Definition M (A : Type) := World -> completion A * World.

Definition ret {A} (a : A) : M A := fun w => (Normal a, w).

Definition bind {A B} (m : M A) (f : A -> M B) : M B := fun w =>
  match m w with
  | (Normal a, w') => f a w'
  | (Throw e, w') => (Throw e, w')
  end.

Definition throw {A} (e : jsstring) : M A := fun w => (Throw e, w).

(** [try { m } catch (err) { h err }]: what [m] did to the state before it
    threw stays done. *)
Definition tryCatch {A} (m : M A) (h : jsstring -> M A) : M A := fun w =>
  match m w with
  | (Throw e, w') => h e w'
  | r => r
  end.

Definition gets {A} (f : Tutor -> A) : M A := fun w => (Normal (f (self w)), w).

Definition update (f : Tutor -> Tutor) : M unit := fun w =>
  (Normal tt,
   mkWorld (f (self w)) (localStorage w) (quotaExceeded w) (writes w) (clock w)
     (ticks w) (random w) (draws w) (console w) (timers w)).

Declare Scope js_scope.
Delimit Scope js_scope with js.
Notation "x <- m ;; k" := (bind m (fun x => k))
  (at level 61, m at next level, right associativity) : js_scope.
Notation "m ;; k" := (bind m (fun _ => k))
  (at level 61, right associativity) : js_scope.
Local Open Scope js_scope.

Definition exec {A} (m : M A) (w : World) : World := snd (m w).
Definition result {A} (m : M A) (w : World) : completion A := fst (m w).

(** ** Assignments to the fields *)

Definition set_isListening (v : bool) (t : Tutor) : Tutor :=
  mkTutor
    (currentMode t) v (isSpeaking t) (isConversationActive t)
    (conversationStatus t) (currentConversation t) (conversationHistory t)
    (filteredHistory t) (selectedHistoryConversation t) (searchQuery t)
    (selectedTopic t) (errorMessage t) (successMessage t) (recognition t)
    (synthesis t) (mediaRecorder t).

Definition set_isSpeaking (v : bool) (t : Tutor) : Tutor :=
  mkTutor
    (currentMode t) (isListening t) v (isConversationActive t)
    (conversationStatus t) (currentConversation t) (conversationHistory t)
    (filteredHistory t) (selectedHistoryConversation t) (searchQuery t)
    (selectedTopic t) (errorMessage t) (successMessage t) (recognition t)
    (synthesis t) (mediaRecorder t).

Definition set_isConversationActive (v : bool) (t : Tutor) : Tutor :=
  mkTutor
    (currentMode t) (isListening t) (isSpeaking t) v (conversationStatus t)
    (currentConversation t) (conversationHistory t) (filteredHistory t)
    (selectedHistoryConversation t) (searchQuery t) (selectedTopic t)
    (errorMessage t) (successMessage t) (recognition t) (synthesis t)
    (mediaRecorder t).

Definition set_conversationStatus (v : jsstring) (t : Tutor) : Tutor :=
  mkTutor
    (currentMode t) (isListening t) (isSpeaking t) (isConversationActive t) v
    (currentConversation t) (conversationHistory t) (filteredHistory t)
    (selectedHistoryConversation t) (searchQuery t) (selectedTopic t)
    (errorMessage t) (successMessage t) (recognition t) (synthesis t)
    (mediaRecorder t).

Definition set_currentConversation (v : option Conversation) (t : Tutor) : Tutor :=
  mkTutor
    (currentMode t) (isListening t) (isSpeaking t) (isConversationActive t)
    (conversationStatus t) v (conversationHistory t) (filteredHistory t)
    (selectedHistoryConversation t) (searchQuery t) (selectedTopic t)
    (errorMessage t) (successMessage t) (recognition t) (synthesis t)
    (mediaRecorder t).

Definition set_conversationHistory (v : list Conversation) (t : Tutor) : Tutor :=
  mkTutor
    (currentMode t) (isListening t) (isSpeaking t) (isConversationActive t)
    (conversationStatus t) (currentConversation t) v (filteredHistory t)
    (selectedHistoryConversation t) (searchQuery t) (selectedTopic t)
    (errorMessage t) (successMessage t) (recognition t) (synthesis t)
    (mediaRecorder t).

Definition set_filteredHistory (v : list Conversation) (t : Tutor) : Tutor :=
  mkTutor
    (currentMode t) (isListening t) (isSpeaking t) (isConversationActive t)
    (conversationStatus t) (currentConversation t) (conversationHistory t) v
    (selectedHistoryConversation t) (searchQuery t) (selectedTopic t)
    (errorMessage t) (successMessage t) (recognition t) (synthesis t)
    (mediaRecorder t).

Definition set_selectedHistoryConversation (v : option Conversation) (t : Tutor) : Tutor :=
  mkTutor
    (currentMode t) (isListening t) (isSpeaking t) (isConversationActive t)
    (conversationStatus t) (currentConversation t) (conversationHistory t)
    (filteredHistory t) v (searchQuery t) (selectedTopic t) (errorMessage t)
    (successMessage t) (recognition t) (synthesis t) (mediaRecorder t).

Definition set_selectedTopic (v : jsstring) (t : Tutor) : Tutor :=
  mkTutor
    (currentMode t) (isListening t) (isSpeaking t) (isConversationActive t)
    (conversationStatus t) (currentConversation t) (conversationHistory t)
    (filteredHistory t) (selectedHistoryConversation t) (searchQuery t) v
    (errorMessage t) (successMessage t) (recognition t) (synthesis t)
    (mediaRecorder t).

Definition set_errorMessage (v : jsstring) (t : Tutor) : Tutor :=
  mkTutor
    (currentMode t) (isListening t) (isSpeaking t) (isConversationActive t)
    (conversationStatus t) (currentConversation t) (conversationHistory t)
    (filteredHistory t) (selectedHistoryConversation t) (searchQuery t)
    (selectedTopic t) v (successMessage t) (recognition t) (synthesis t)
    (mediaRecorder t).

Definition set_successMessage (v : jsstring) (t : Tutor) : Tutor :=
  mkTutor
    (currentMode t) (isListening t) (isSpeaking t) (isConversationActive t)
    (conversationStatus t) (currentConversation t) (conversationHistory t)
    (filteredHistory t) (selectedHistoryConversation t) (searchQuery t)
    (selectedTopic t) (errorMessage t) v (recognition t) (synthesis t)
    (mediaRecorder t).

Definition set_recognition (v : option bool) (t : Tutor) : Tutor :=
  mkTutor
    (currentMode t) (isListening t) (isSpeaking t) (isConversationActive t)
    (conversationStatus t) (currentConversation t) (conversationHistory t)
    (filteredHistory t) (selectedHistoryConversation t) (searchQuery t)
    (selectedTopic t) (errorMessage t) (successMessage t) v (synthesis t)
    (mediaRecorder t).

Definition set_synthesis (v : option SpeechSynthesis) (t : Tutor) : Tutor :=
  mkTutor
    (currentMode t) (isListening t) (isSpeaking t) (isConversationActive t)
    (conversationStatus t) (currentConversation t) (conversationHistory t)
    (filteredHistory t) (selectedHistoryConversation t) (searchQuery t)
    (selectedTopic t) (errorMessage t) (successMessage t) (recognition t) v
    (mediaRecorder t).

Definition set_mediaRecorder (v : option RecorderState) (t : Tutor) : Tutor :=
  mkTutor
    (currentMode t) (isListening t) (isSpeaking t) (isConversationActive t)
    (conversationStatus t) (currentConversation t) (conversationHistory t)
    (filteredHistory t) (selectedHistoryConversation t) (searchQuery t)
    (selectedTopic t) (errorMessage t) (successMessage t) (recognition t)
    (synthesis t) v.

Definition put_localStorage (v : Storage) (w : World) : World :=
  mkWorld
    (self w) v (quotaExceeded w) (writes w) (clock w) (ticks w) (random w)
    (draws w) (console w) (timers w).

Definition put_writes (v : nat) (w : World) : World :=
  mkWorld
    (self w) (localStorage w) (quotaExceeded w) v (clock w) (ticks w)
    (random w) (draws w) (console w) (timers w).

Definition put_ticks (v : nat) (w : World) : World :=
  mkWorld
    (self w) (localStorage w) (quotaExceeded w) (writes w) (clock w) v
    (random w) (draws w) (console w) (timers w).

Definition put_draws (v : nat) (w : World) : World :=
  mkWorld
    (self w) (localStorage w) (quotaExceeded w) (writes w) (clock w)
    (ticks w) (random w) v (console w) (timers w).

Definition put_console (v : list (jsstring * jsstring)) (w : World) : World :=
  mkWorld
    (self w) (localStorage w) (quotaExceeded w) (writes w) (clock w)
    (ticks w) (random w) (draws w) v (timers w).

Definition put_timers (v : list (N * Callback)) (w : World) : World :=
  mkWorld
    (self w) (localStorage w) (quotaExceeded w) (writes w) (clock w)
    (ticks w) (random w) (draws w) (console w) v.

(* ===================================================================== *)
(** * The browser objects *)
(* ===================================================================== *)

(** [Date.now()] and [new Date()]: the next reading of the clock. *)
Definition Date_now : M N := fun w =>
  (Normal (clock w (ticks w)), put_ticks (S (ticks w)) w).

(** [Math.random()]: a number in [0, 1) with 53 random bits, as its
    numerator over 2^53. *)
Definition Math_random : M N := fun w =>
  (Normal (random w (draws w) mod 2 ^ 53), put_draws (S (draws w)) w).

Definition console_error (label err : jsstring) : M unit := fun w =>
  (Normal tt, put_console (console w ++ [(label, err)]) w).

Definition setTimeout (cb : Callback) (ms : N) : M unit := fun w =>
  (Normal tt, put_timers (timers w ++ [(ms, cb)]) w).

(** [Math.round(num / den)] for a positive [den]: the nearest integer, a
    half going up.  The quotient is taken exactly. *)
Definition Math_round (num den : Z) : Z := ((2 * num + den) / (2 * den))%Z.

(** A key of localStorage: where its string is read and written. *)
Record Key (A : Type) := mkKey {
  lookup : Storage -> option (item A);
  store : option (item A) -> Storage -> Storage
}.

Definition conversationHistoryKey : Key (list Conversation) :=
  mkKey key_conversationHistory
    (fun v s => mkStorage v (key_currentConversation s)).

Definition currentConversationKey : Key Conversation :=
  mkKey key_currentConversation
    (fun v s => mkStorage (key_conversationHistory s) v).

Definition getItem {A} (k : Key A) : M (option (item A)) := fun w =>
  (Normal (lookup k (localStorage w)), w).

(** [localStorage.setItem] throws when the store refuses the write. *)
Definition setItem {A} (k : Key A) (v : item A) : M unit := fun w =>
  let w' := put_writes (S (writes w)) w in
  if quotaExceeded w (writes w)
  then (Throw (js "QuotaExceededError"), w')
  else (Normal tt, put_localStorage (store k (Some v) (localStorage w)) w').

Definition removeItem {A} (k : Key A) : M unit := fun w =>
  (Normal tt, put_localStorage (store k None (localStorage w)) w).

(** Is [getItem]'s answer truthy: there is a string and it is not empty. *)
Definition truthy {A} (v : option (item A)) : bool :=
  match v with
  | None | Some Empty => false
  | Some Garbled | Some (Json _) => true
  end.

Definition JSON_parse {A} (v : option (item A)) : M A :=
  match v with
  | Some (Json a) => ret a
  | _ => throw (js "SyntaxError")
  end.

(** What [JSON.stringify] keeps of a conversation: a Blob is written as an
    empty object. *)
Definition serializable (c : Conversation) : Conversation :=
  mkConversation (c_id c) (startTime c) (endTime c) (topic c) (difficulty c)
    (messages c)
    (List.map (fun r => mkAudioRecording (url r) None) (audioRecordings c)).

Definition JSON_stringify (c : Conversation) : item Conversation :=
  Json (serializable c).

Definition JSON_stringify_all (h : list Conversation)
  : item (list Conversation) :=
  Json (List.map serializable h).

(** An own property of an object literal used as a table.  The literal
    also answers to the names it inherits from [Object.prototype], with a
    function or an object that is neither a string nor an array; [table[k]]
    of the source is [property table k] for every name [k] that is not
    [inherited]. *)
Definition Object_prototype : list jsstring :=
  [ js "constructor"; js "hasOwnProperty"; js "isPrototypeOf";
    js "propertyIsEnumerable"; js "toLocaleString"; js "toString";
    js "valueOf"; js "__proto__"; js "__defineGetter__";
    js "__defineSetter__"; js "__lookupGetter__"; js "__lookupSetter__" ].

Definition inherited (k : jsstring) : bool := existsb (streq k) Object_prototype.

Fixpoint property {A} (table : list (jsstring * A)) (k : jsstring) : option A :=
  match table with
  | [] => None
  | (k', v) :: table' => if streq k' k then Some v else property table' k
  end.

(* ===================================================================== *)
(** * UI helpers *)
(* ===================================================================== *)

Definition updateStatus : M unit :=
  l <- gets isListening ;;
  s <- gets isSpeaking ;;
  if l then update (set_conversationStatus (js "listening"))
  else if s then update (set_conversationStatus (js "speaking"))
  else update (set_conversationStatus (js "idle")).

Definition showError (msg : jsstring) : M unit :=
  update (set_errorMessage msg) ;;
  setTimeout ClearErrorMessage 5000.

Definition showSuccess (msg : jsstring) : M unit :=
  update (set_successMessage msg) ;;
  setTimeout ClearSuccessMessage 3000.

(** What a timer does when it fires. *)
Definition fire (cb : Callback) : M unit :=
  match cb with
  | ClearErrorMessage => update (set_errorMessage [])
  | ClearSuccessMessage => update (set_successMessage [])
  end.

(* ===================================================================== *)
(** * Speech control *)
(* ===================================================================== *)

Definition stopListening : M unit :=
  tryCatch
    (r <- gets recognition ;;
     l <- gets isListening ;;
     match r with
     | Some _ => if l then update (set_recognition (Some false)) else ret tt
     | None => ret tt
     end ;;
     mr <- gets mediaRecorder ;;
     match mr with
     | Some recording => update (set_mediaRecorder (Some inactive))
     | _ => ret tt
     end ;;
     update (set_isListening false) ;;
     updateStatus)
    (fun err => console_error (js "stopListening error") err).

(** The utterance is handed to the synthesizer; its start and end arrive
    later as events. *)
Definition speakResponse (text : jsstring) : M unit :=
  tryCatch
    (sy <- gets synthesis ;;
     match sy with
     | None => ret tt
     | Some s =>
         let s := if speaking s then mkSynthesis false [] else s in
         update (set_synthesis (Some (mkSynthesis true (utterances s ++ [text]))))
     end)
    (fun err =>
       console_error (js "speakResponse error") err ;;
       update (set_isSpeaking false) ;;
       updateStatus).

(* ===================================================================== *)
(** * Greetings, responses, corrections, assessments *)
(* ===================================================================== *)

Definition greetings : list (jsstring * jsstring) :=
  [ (js "daily-life", js "Hello! Let's talk about daily life. How was your day today?");
    (js "work", js "Hi there! Let's discuss work and business. What do you do for a living?");
    (js "travel", js "Greetings! Ready to talk about travel? What's the most interesting place you've visited?");
    (js "food", js "Hello! Let's chat about food. What's your favorite cuisine?");
    (js "hobbies", js "Hi! What are your hobbies? I'd love to hear about what you enjoy doing in your free time.");
    (js "random", js "Hey! Let's have a casual chat. What's on your mind today?") ].

Definition generateGreeting : M jsstring :=
  t <- gets selectedTopic ;;
  match property greetings t with
  | Some g => ret g
  | None => ret (js "Hello! Let's practice English. What would you like to talk about?")
  end.

Definition responses : list (jsstring * list jsstring) :=
  [ (js "daily-life",
      [ js "That's interesting! Tell me more about your daily routine.";
        js "How do you usually spend your evenings?";
        js "What do you like to do on weekends?";
        js "That sounds like a busy day! Do you get enough time to relax?" ]);
    (js "work",
      [ js "That sounds fascinating! What do you enjoy most about your job?";
        js "How long have you been working in this field?";
        js "What skills are most important for your profession?";
        js "That's impressive! What challenges do you face at work?" ]);
    (js "travel",
      [ js "Wow, that must have been an amazing experience! What did you like most?";
        js "Would you like to visit there again? Why?";
        js "What other places are on your travel wishlist?";
        js "How did you plan your trip? Any tips for others?" ]);
    (js "food",
      [ js "That sounds delicious! How often do you eat that?";
        js "Can you cook it yourself? What's the recipe?";
        js "What other dishes do you enjoy from that cuisine?";
        js "Have you tried making it at home? How did it turn out?" ]);
    (js "hobbies",
      [ js "That's a great hobby! How did you get started?";
        js "How much time do you spend on it?";
        js "What equipment or tools do you need?";
        js "Have you met others who share this interest?" ]);
    (js "random",
      [ js "Tell me more!";
        js "That's interesting " ++ [8212] ++ js " why do you think that happened?";
        js "Could you expand on that?" ]) ].

(** The binary64 number nearest to [p / 2^53], again as a numerator over
    2^53: [p] itself when 53 bits hold it, and otherwise [p] rounded to its
    53 leading bits, a tie going to the even neighbour. *)
Definition binary64 (p : N) : N :=
  let s := N.log2 p - 52 in
  let q := p / 2 ^ s in
  let r := p mod 2 ^ s in
  (if 2 * r <? 2 ^ s then q
   else if 2 ^ s <? 2 * r then q + 1
   else if N.even q then q else q + 1) * 2 ^ s.

(** The index [Math.floor(Math.random() * n)]: the product is a binary64
    number, rounded as such before the floor is taken. *)
Definition randomIndex (r : N) (n : nat) : nat :=
  N.to_nat (binary64 (r * N.of_nat n) / 2 ^ 53).

Definition generateAIResponse (userText : jsstring) : M jsstring :=
  tryCatch
    (t <- gets selectedTopic ;;
     let topicResponses :=
       match property responses t with
       | Some l => l
       | None =>
           match property responses (js "random") with
           | Some l => l
           | None => []
           end
       end in
     r <- Math_random ;;
     let randomResponse :=
       nth (randomIndex r (List.length topicResponses)) topicResponses
         (js "undefined") in
     if includes userText (js "?")
     then ret (js "That's a good question! " ++ randomResponse)
     else if (List.length (split userText (js " ")) <? 5)%nat
     then ret (js "I see. Could you tell me more? " ++ randomResponse)
     else ret randomResponse)
    (fun err =>
       console_error (js "generateAIResponse error") err ;;
       ret (js "That's interesting! Tell me more.")).

(** The table of common errors, in the order it is written. *)
Definition corrections : list (jsstring * jsstring) :=
  [ (js "i am go", js "I am going");
    (js "i have went", js "I have gone");
    (js "she go", js "she goes");
    (js "he go", js "he goes");
    (js "they goes", js "they go");
    (js "i doesn't", js "I don't");
    (js "he don't", js "he doesn't");
    (js "she don't", js "she doesn't");
    (js "yesterday i go", js "yesterday I went");
    (js "tomorrow i go", js "tomorrow I will go");
    (js "i didn't went", js "I didn't go") ].

Definition advice_plural : jsstring :=
  js "Remember: Use 'go' with I, you, we, they. Use 'goes' with he, she, it.".

Definition advice_singular : jsstring :=
  js "Remember: Use 'goes' with he, she, it. Use 'go' with I, you, we, they.".

Definition generateCorrection (text : jsstring) : M (option jsstring) :=
  tryCatch
    (let lower := toLowerCase text in
     match find (fun entry => includes lower (fst entry)) corrections with
     | Some (_, good) => ret (Some (js "Did you mean: '" ++ good ++ js "'?"))
     | None =>
         if Regex.test re_plural_goes lower then ret (Some advice_plural)
         else if Regex.test re_singular_go lower then ret (Some advice_singular)
         else ret None
     end)
    (fun err =>
       console_error (js "generateCorrection error") err ;;
       ret None).

Definition challengingSounds : list jsstring :=
  [js "th"; js "r"; js "l"; js "v"; js "w"].

Definition assessPronunciation (text : jsstring) : M Z :=
  tryCatch
    (let score := 70%Z in
     let wordCount := List.length (Regex.split (trim text) re_spaces) in
     let score := if (5 <? wordCount)%nat then (score + 10)%Z else score in
     let score := if (10 <? wordCount)%nat then (score + 10)%Z else score in
     let complexWords := Regex.matchAll re_complexWord text in
     let score :=
       match complexWords with
       | Some ws => (score + Z.min (Z.of_nat (List.length ws) * 2) 10)%Z
       | None => score
       end in
     let score := if includes text (js ",") then (score + 5)%Z else score in
     let score := if includes text (js ".") then (score + 5)%Z else score in
     let score := if (wordCount <? 3)%nat then (score - 20)%Z else score in
     let found :=
       filter (fun s => includes (toLowerCase text) s) challengingSounds in
     let score := if (2 <=? List.length found)%nat then (score + 5)%Z else score in
     ret (Z.max 0 (Z.min 100 (Math_round score 1))))
    (fun err =>
       console_error (js "assessPronunciation error") err ;;
       ret 70%Z).

Definition generatePronunciationFeedback (text : jsstring) : M jsstring :=
  score <- assessPronunciation text ;;
  if (90 <=? score)%Z
  then ret (js "Excellent pronunciation! Your speech is very clear and natural.")
  else if (80 <=? score)%Z
  then ret (js "Great job! Your pronunciation is good with minor improvements possible.")
  else if (70 <=? score)%Z
  then ret (js "Good effort! Focus on clarity and word stress.")
  else if (60 <=? score)%Z
  then ret (js "Keep practicing! Try to speak more slowly and clearly.")
  else ret (js "Don't worry! Practice basic sounds and short phrases first.").

(* ===================================================================== *)
(** * History and localStorage *)
(* ===================================================================== *)

Definition saveCurrentConversation : M unit :=
  tryCatch
    (cur <- gets currentConversation ;;
     match cur with
     | Some c => setItem currentConversationKey (JSON_stringify c)
     | None => ret tt
     end)
    (fun err => console_error (js "saveCurrentConversation error") err).

Definition loadHistory : M unit :=
  tryCatch
    (saved <- getItem conversationHistoryKey ;;
     h <- (if truthy saved then JSON_parse saved else ret []) ;;
     update (set_conversationHistory h) ;;
     current <- getItem currentConversationKey ;;
     (if truthy current
      then c <- JSON_parse current ;;
           update (set_currentConversation (Some c)) ;;
           update (set_isConversationActive true)
      else ret tt) ;;
     h <- gets conversationHistory ;;
     update (set_filteredHistory h))
    (fun err =>
       console_error (js "loadHistory error") err ;;
       update (set_conversationHistory []) ;;
       update (set_filteredHistory [])).

(** The conversation handed over is the object the caller holds; the one
    caller, [endConversation], has set its end time, so the first statement
    leaves that object as it is. *)
Definition saveConversation (conversation : Conversation) : M unit :=
  tryCatch
    (closed <- match endTime conversation with
               | Some _ => ret conversation
               | None =>
                   t <- Date_now ;;
                   ret (with_endTime conversation (Some t))
               end ;;
     h <- gets conversationHistory ;;
     update (set_conversationHistory (closed :: h)) ;;
     h <- gets conversationHistory ;;
     (if (50 <? List.length h)%nat
      then update (set_conversationHistory (firstn 50 h))
      else ret tt) ;;
     h <- gets conversationHistory ;;
     setItem conversationHistoryKey (JSON_stringify_all h) ;;
     removeItem currentConversationKey ;;
     h <- gets conversationHistory ;;
     update (set_filteredHistory h))
    (fun err =>
       console_error (js "saveConversation error") err ;;
       showError (js "Failed to save conversation: " ++ err)).

Definition isUser (m : Message) : bool :=
  match type m with
  | user => true
  | ai => false
  end.

(** [m.pronunciationScore || 0] *)
Definition scoreOrZero (m : Message) : Z :=
  match pronunciationScore m with
  | Some z => z
  | None => 0%Z
  end.

(** The sum of the scores of some messages, a message without a score
    counting 0. *)
Fixpoint sumOfScores (ms : list Message) : Z :=
  match ms with
  | [] => 0%Z
  | m :: ms' =>
      (match pronunciationScore m with
       | Some score => score
       | None => 0
       end + sumOfScores ms')%Z
  end.

(** The argument is null when there is no conversation to look at. *)
Definition getAveragePronunciationScore (conversation : option Conversation)
  : M Z :=
  tryCatch
    (match conversation with
     | None => throw (js "Cannot read properties of null (reading 'messages')")
     | Some c =>
         let users := filter isUser (messages c) in
         if (List.length users =? 0)%nat then ret 0%Z
         else
           let total := fold_left (fun s m => (s + scoreOrZero m)%Z) users 0%Z in
           ret (Math_round total (Z.of_nat (List.length users)))
     end)
    (fun err =>
       console_error (js "getAveragePronunciationScore error") err ;;
       ret 0%Z).

(* ===================================================================== *)
(** * Message handling and the conversation life cycle *)
(* ===================================================================== *)

Definition addAIMessage (text : jsstring) : M unit :=
  tryCatch
    (id <- Date_now ;;
     ts <- Date_now ;;
     let aiMessage := mkMessage id ai text ts None None None None in
     cur <- gets currentConversation ;;
     match cur with
     | Some c =>
         update (set_currentConversation
                   (Some (with_messages c (messages c ++ [aiMessage]))))
     | None => throw (js "Cannot read properties of null (reading 'messages')")
     end ;;
     saveCurrentConversation ;;
     speakResponse text)
    (fun err =>
       console_error (js "addAIMessage error") err ;;
       showError (js "Failed to generate AI response: " ++ err)).

Definition startNewConversation : M unit :=
  tryCatch
    (id <- Date_now ;;
     st <- Date_now ;;
     t <- gets selectedTopic ;;
     update (set_currentConversation
               (Some (mkConversation id st None t (js "beginner") [] []))) ;;
     update (set_isConversationActive true) ;;
     update (set_selectedHistoryConversation None) ;;
     greeting <- generateGreeting ;;
     addAIMessage greeting ;;
     t <- gets selectedTopic ;;
     showSuccess (js "New conversation started! Topic: " ++ t))
    (fun err =>
       console_error (js "startNewConversation error") err ;;
       showError (js "Failed to start new conversation: " ++ err)).

Definition endConversation : M unit :=
  tryCatch
    (cur <- gets currentConversation ;;
     match cur with
     | Some c =>
         if (0 <? List.length (messages c))%nat
         then t <- Date_now ;;
              let c := with_endTime c (Some t) in
              update (set_currentConversation (Some c)) ;;
              saveConversation c
         else ret tt
     | None => ret tt
     end ;;
     update (set_isConversationActive false) ;;
     stopListening ;;
     update (set_currentConversation None) ;;
     showSuccess (js "Conversation ended and saved to history"))
    (fun err =>
       console_error (js "endConversation error") err ;;
       showError (js "Failed to end conversation: " ++ err)).

Definition pauseConversation : M unit :=
  update (set_isConversationActive false) ;;
  stopListening ;;
  showSuccess (js "Conversation paused").

(** The component as its field initializers leave it, in a browser with
    the given synthesizer. *)
Definition newTutor (sy : option SpeechSynthesis) : Tutor :=
  mkTutor conversation false false false (js "idle") None [] [] None []
    (js "daily-life") [] [] None sy None.

Definition newWorld (st : Storage) : World :=
  mkWorld (newTutor (Some (mkSynthesis false []))) st (fun _ => false) 0
    (fun n => 1700000000000 + N.of_nat n) 0 (fun _ => 0) 0 [] [].

(* ===================================================================== *)
(** * Vocabulary of the statements *)
(* ===================================================================== *)

(** A conversation as [saveConversation] files it: its end time is set to
    the reading [t] of the clock unless it has one. *)
Definition closedAt (t : N) (c : Conversation) : Conversation :=
  match endTime c with
  | Some _ => c
  | None => with_endTime c (Some t)
  end.

Definition closes (c c' : Conversation) : Prop := exists t, c' = closedAt t c.

(** A sequence of archival operations. *)
Fixpoint archiveAll (cs : list Conversation) : M unit :=
  match cs with
  | [] => ret tt
  | c :: cs' => saveConversation c ;; archiveAll cs'
  end.

(** A snapshot is missing when the key holds nothing or the empty string
    (which the component treats alike), corrupt when it holds a string that
    does not parse. *)
Definition missing {A} (v : option (item A)) : bool :=
  match v with
  | None | Some Empty => true
  | _ => false
  end.

Definition corrupt {A} (v : option (item A)) : bool :=
  match v with
  | Some Garbled => true
  | _ => false
  end.

(** A message with a missing score given the score 0. *)
Definition fillScore (m : Message) : Message :=
  mkMessage (m_id m) (type m) (text m) (timestamp m) (correction m)
    (Some (scoreOrZero m)) (pronunciationFeedback m) (audioUrl m).

(** ** Worlds and conversations to run examples in *)

Definition emptyStorage : Storage := mkStorage None None.

(** A fresh component, an empty store that takes every write. *)
Definition w0 : World := newWorld emptyStorage.

Definition foodWorld : World :=
  mkWorld (set_selectedTopic (js "food") (newTutor None)) emptyStorage
    (fun _ => false) 0 (fun _ => 0) 0 (fun _ => 3 * 2 ^ 51) 0 [] [].

Definition greetingOnly : Conversation :=
  mkConversation 1 1 None (js "food") (js "beginner")
    [mkMessage 2 ai (js "Hello! Let's chat about food. What's your favorite cuisine?")
       3 None None None None] [].

(** The closed conversation number [n], with one exchange. *)
Definition numbered (n : N) : Conversation :=
  mkConversation n n (Some (n + 1)) (js "travel") (js "beginner")
    [mkMessage n ai (js "Greetings!") n None None None None;
     mkMessage n user (js "I went to Rome.") n None (Some 75%Z)
       (Some (js "Good effort! Focus on clarity and word stress.")) None] [].

(** A full history: conversations 50 down to 1, the most recent first. *)
Definition fullHistory : list Conversation :=
  List.map (fun n => numbered (N.of_nat n)) (rev (seq 1 50)).

Definition fullWorld : World :=
  mkWorld (set_conversationHistory fullHistory (newTutor None))
    (mkStorage (Some (JSON_stringify_all fullHistory)) None)
    (fun _ => false) 0 (fun n => 1700000000000 + N.of_nat n) 0
    (fun _ => 0) 0 [] [].

(** A store after a conversation was ended: a history, no active
    snapshot. *)
Definition archivedStorage : Storage :=
  mkStorage (Some (JSON_stringify_all [numbered 1])) None.

(* ===================================================================== *)
(** * The rest of the component *)
(* ===================================================================== *)

Definition set_currentMode (v : Mode) (t : Tutor) : Tutor :=
  mkTutor
    v (isListening t) (isSpeaking t) (isConversationActive t)
    (conversationStatus t) (currentConversation t) (conversationHistory t)
    (filteredHistory t) (selectedHistoryConversation t) (searchQuery t)
    (selectedTopic t) (errorMessage t) (successMessage t) (recognition t)
    (synthesis t) (mediaRecorder t).

Definition with_audioRecordings (c : Conversation) (rs : list AudioRecording)
  : Conversation :=
  mkConversation (c_id c) (startTime c) (endTime c) (topic c) (difficulty c)
    (messages c) rs.

Definition with_audioUrl (m : Message) (u : option jsstring) : Message :=
  mkMessage (m_id m) (type m) (text m) (timestamp m) (correction m)
    (pronunciationScore m) (pronunciationFeedback m) u.

(** The decimal string of an integer, as [+] with a string makes it. *)
Definition Number_toString (z : Z) : jsstring :=
  js (DecimalString.NilZero.string_of_int (Z.to_int z)).

(** [l.filter(p)] for a callback that is itself a method. *)
Fixpoint filterM {A} (p : A -> M bool) (l : list A) : M (list A) :=
  match l with
  | [] => ret []
  | x :: l' =>
      b <- p x ;;
      r <- filterM p l' ;;
      ret (if b then x :: r else r)
  end.

(** ** Statistics and previews of a conversation *)

(** [m.correction] as a condition: there is a suggestion and it is not the
    empty string. *)
Definition hasCorrection (m : Message) : bool :=
  match correction m with
  | Some (_ :: _) => true
  | _ => false
  end.

Definition getCorrectionCount (conversation : option Conversation) : M nat :=
  tryCatch
    (match conversation with
     | None => throw (js "Cannot read properties of null (reading 'messages')")
     | Some c =>
         ret (List.length
                (filter (fun m => isUser m && hasCorrection m) (messages c)))
     end)
    (fun err =>
       console_error (js "getCorrectionCount error") err ;;
       ret 0%nat).

Definition getConversationPreview (conversation : option Conversation)
  : M jsstring :=
  tryCatch
    (match conversation with
     | None => throw (js "Cannot read properties of null (reading 'messages')")
     | Some c =>
         let userMessages := filter isUser (messages c) in
         match userMessages with
         | [] => ret (js "No messages")
         | m :: _ =>
             let first := text m in
             if (50 <? List.length first)%nat
             then ret (firstn 50 first ++ js "...")
             else ret first
         end
     end)
    (fun err =>
       console_error (js "getConversationPreview error") err ;;
       ret (js "Error loading preview")).

(** The start time of a conversation is a time stamp, hence truthy; the
    difference of the two dates is in milliseconds and the quotient is
    taken exactly. *)
Definition calculateSessionDuration (conversation : option Conversation)
  : M jsstring :=
  tryCatch
    (match conversation with
     | None => ret (js "0 min")
     | Some c =>
         let start := startTime c in
         e <- match endTime c with
              | Some e => ret e
              | None => Date_now
              end ;;
         let minutes := ((Z.of_N e - Z.of_N start) / 60000)%Z in
         ret (Number_toString minutes ++ js " min")
     end)
    (fun err =>
       console_error (js "calculateSessionDuration error") err ;;
       ret (js "0 min")).

(** ** The history view *)

Definition selectHistoryConversation (c : option Conversation) : M unit :=
  update (set_selectedHistoryConversation c).

Definition filterHistory : M unit :=
  tryCatch
    (sq <- gets searchQuery ;;
     match sq with
     | [] =>
         h <- gets conversationHistory ;;
         update (set_filteredHistory h)
     | _ :: _ =>
         let q := toLowerCase sq in
         h <- gets conversationHistory ;;
         f <- filterM
                (fun conv =>
                   let topicMatch := includes (toLowerCase (topic conv)) q in
                   p <- getConversationPreview (Some conv) ;;
                   let preview := toLowerCase p in
                   ret (topicMatch || includes preview q))
                h ;;
         update (set_filteredHistory f)
     end)
    (fun err =>
       console_error (js "filterHistory error") err ;;
       h <- gets conversationHistory ;;
       update (set_filteredHistory h)).

(** [confirmed] is the answer of the confirmation dialog. *)
Definition clearHistory (confirmed : bool) : M unit :=
  if negb confirmed then ret tt
  else
    tryCatch
      (update (set_conversationHistory []) ;;
       update (set_filteredHistory []) ;;
       update (set_selectedHistoryConversation None) ;;
       removeItem conversationHistoryKey ;;
       removeItem currentConversationKey ;;
       showSuccess (js "Conversation history cleared"))
      (fun err =>
         console_error (js "clearHistory error") err ;;
         showError (js "Failed to clear history: " ++ err)).

Definition switchMode (mode : Mode) : M unit :=
  update (set_currentMode mode) ;;
  h <- gets conversationHistory ;;
  s <- gets selectedHistoryConversation ;;
  match mode, h, s with
  | history, first :: _, None =>
      update (set_selectedHistoryConversation (Some first))
  | _, _, _ => ret tt
  end.

(** ** Handling what the user said *)

(** The callback [processUserSpeech] hands to [setTimeout]. *)
Definition replyTo (transcript : jsstring) : M unit :=
  aiResponse <- generateAIResponse transcript ;;
  addAIMessage aiResponse.

(** The timer this method sets carries the transcript; it is returned to
    the event loop as the delay and the callback ([None]: no timer was
    set). *)
Definition processUserSpeech (transcript : jsstring)
  : M (option (N * M unit)) :=
  tryCatch
    (id <- Date_now ;;
     ts <- Date_now ;;
     c <- generateCorrection transcript ;;
     score <- assessPronunciation transcript ;;
     feedback <- generatePronunciationFeedback transcript ;;
     let userMessage :=
       mkMessage id user transcript ts c (Some score) (Some feedback) None in
     cur <- gets currentConversation ;;
     match cur with
     | Some conv =>
         update (set_currentConversation
                   (Some (with_messages conv (messages conv ++ [userMessage]))))
     | None => throw (js "Cannot read properties of null (reading 'messages')")
     end ;;
     saveCurrentConversation ;;
     stopListening ;;
     ret (Some (800, replyTo transcript)))
    (fun err =>
       console_error (js "processUserSpeech error") err ;;
       showError (js "Failed to process your speech: " ++ err) ;;
       ret None).

(** ** The handlers of the recognizer *)

Definition recognition_onstart : M unit :=
  update (set_isListening true) ;;
  updateStatus.

(** The results are pairs of a transcript and whether it is final. *)
Definition finalTranscript (resultIndex : nat) (results : list (jsstring * bool))
  : jsstring :=
  fold_left
    (fun (acc : jsstring) (r : jsstring * bool) =>
       if snd r then acc ++ fst r else acc)
    (skipn resultIndex results) [].

Definition recognition_onresult (resultIndex : nat)
  (results : list (jsstring * bool)) : M (option (N * M unit)) :=
  let final := finalTranscript resultIndex results in
  match trim final with
  | [] => ret None
  | _ :: _ => processUserSpeech (trim final)
  end.

(** [error] is the [error] property of the event, if it has one. *)
Definition recognition_onerror (error : option jsstring) : M unit :=
  let kind := match error with
              | Some (c :: e) => c :: e
              | _ => js "unknown"
              end in
  console_error (js "Recognition error") kind ;;
  showError (js "Speech recognition error: " ++ kind) ;;
  stopListening.

Definition recognition_onend : M unit :=
  update (set_isListening false) ;;
  updateStatus.

(** [available]: does the browser have a recognizer. *)
Definition initSpeechRecognition (available : bool) : M unit :=
  tryCatch
    (if available
     then update (set_recognition (Some false))
     else showError (js "Speech recognition not supported in this browser. Please use Chrome, Edge, or Safari."))
    (fun err =>
       console_error (js "Error initializing speech recognition") err ;;
       showError (js "Failed to initialize speech recognition: " ++ err)).

(** ** Listening *)

(** [startListening] up to its [await]: the answer says whether it is now
    waiting for the microphone. *)
Definition startListening_begin : M bool :=
  tryCatch
    (r <- gets recognition ;;
     match r with
     | None =>
         showError (js "Speech recognition not available") ;;
         ret false
     | Some _ =>
         a <- gets isConversationActive ;;
         (if a then ret tt else startNewConversation) ;;
         ret true
     end)
    (fun err =>
       console_error (js "startListening error") err ;;
       showError (js "Microphone access denied or error: " ++ err) ;;
       ret false).

(** [startListening] from its [await] on: [granted] is whether the
    microphone was granted, [recorder] whether the browser has a
    MediaRecorder.  Starting a recognizer that runs throws. *)
Definition startListening_resume (granted recorder : bool) : M unit :=
  tryCatch
    ((if granted then ret tt else throw (js "Permission denied")) ;;
     (if recorder then update (set_mediaRecorder (Some recording)) else ret tt) ;;
     r <- gets recognition ;;
     match r with
     | Some false => update (set_recognition (Some true))
     | Some true => throw (js "InvalidStateError")
     | None => throw (js "Cannot read properties of null (reading 'start')")
     end)
    (fun err =>
       console_error (js "startListening error") err ;;
       showError (js "Microphone access denied or error: " ++ err)).

(** The recorder has stopped: [audioUrl] is the object URL made for the
    recording, [audioBlob] the recording. *)
Definition mediaRecorder_onstop (audioUrl : jsstring) (audioBlob : N) : M unit :=
  tryCatch
    (cur <- gets currentConversation ;;
     match cur with
     | None => ret tt
     | Some c =>
         let rec := mkAudioRecording audioUrl (Some audioBlob) in
         match rev (messages c) with
         | [] => ret tt
         | last :: before =>
             match type last with
             | user =>
                 update (set_currentConversation
                           (Some (with_audioRecordings
                                    (with_messages c
                                       (rev before
                                        ++ [with_audioUrl last (Some audioUrl)]))
                                    (audioRecordings c ++ [rec])))) ;;
                 saveCurrentConversation
             | ai =>
                 update (set_currentConversation
                           (Some (with_audioRecordings c
                                    (audioRecordings c ++ [rec]))))
             end
         end
     end)
    (fun err => console_error (js "mediaRecorder.onstop error") err).

(** ** The handlers of an utterance *)

Definition utterance_onstart : M unit :=
  update (set_isSpeaking true) ;;
  updateStatus.

(** The callback the end of an utterance hands to [setTimeout]. *)
Definition resumeListening : M bool :=
  a <- gets isConversationActive ;;
  if a then startListening_begin else ret false.

Definition utterance_onend : M (option (N * M bool)) :=
  update (set_isSpeaking false) ;;
  updateStatus ;;
  ret (Some (500, resumeListening)).

Definition utterance_onerror (error : jsstring) : M unit :=
  console_error (js "synthesis error") error ;;
  update (set_isSpeaking false) ;;
  updateStatus.

(** ** The life cycle of the component *)

Definition ngOnInit (available : bool) : M unit :=
  loadHistory ;;
  initSpeechRecognition available ;;
  startNewConversation.

Definition ngOnDestroy : M unit :=
  tryCatch
    (r <- gets recognition ;;
     l <- gets isListening ;;
     match r with
     | Some _ => if l then update (set_recognition (Some false)) else ret tt
     | None => ret tt
     end ;;
     sy <- gets synthesis ;;
     sp <- gets isSpeaking ;;
     match sy with
     | Some _ =>
         if sp then update (set_synthesis (Some (mkSynthesis false [])))
         else ret tt
     | None => ret tt
     end ;;
     mr <- gets mediaRecorder ;;
     match mr with
     | Some recording => update (set_mediaRecorder (Some inactive))
     | _ => ret tt
     end)
    (fun err => console_error (js "Cleanup error") err).

(** ** The component as a machine *)

(** What can happen to the component: its methods being called and the
    handlers and timers it has registered being run. *)
Inductive Event :=
| OnInit (available : bool)
| OnDestroy
| StartNewConversation
| EndConversation
| PauseConversation
| StartListening
| MicrophoneSettled (granted recorder : bool)
| StopListening
| RecognitionStart
| RecognitionResult (resultIndex : nat) (results : list (jsstring * bool))
| RecognitionError (error : option jsstring)
| RecognitionEnd
| UtteranceStart
| UtteranceEnd
| UtteranceError (error : jsstring)
| RecorderStop (audioUrl : jsstring) (audioBlob : N)
| ReplyTimer (transcript : jsstring)
| ResumeTimer
| Timeout (cb : Callback)
| FilterHistory
| ClearHistory (confirmed : bool)
| SwitchMode (mode : Mode)
| SelectHistoryConversation (c : option Conversation).

Definition handle (e : Event) : M unit :=
  match e with
  | OnInit available => ngOnInit available
  | OnDestroy => ngOnDestroy
  | StartNewConversation => startNewConversation
  | EndConversation => endConversation
  | PauseConversation => pauseConversation
  | StartListening => _ <- startListening_begin ;; ret tt
  | MicrophoneSettled granted recorder => startListening_resume granted recorder
  | StopListening => stopListening
  | RecognitionStart => recognition_onstart
  | RecognitionResult i rs => _ <- recognition_onresult i rs ;; ret tt
  | RecognitionError error => recognition_onerror error
  | RecognitionEnd => recognition_onend
  | UtteranceStart => utterance_onstart
  | UtteranceEnd => _ <- utterance_onend ;; ret tt
  | UtteranceError error => utterance_onerror error
  | RecorderStop u b => mediaRecorder_onstop u b
  | ReplyTimer transcript => replyTo transcript
  | ResumeTimer => _ <- resumeListening ;; ret tt
  | Timeout cb => fire cb
  | FilterHistory => filterHistory
  | ClearHistory confirmed => clearHistory confirmed
  | SwitchMode mode => switchMode mode
  | SelectHistoryConversation c => selectHistoryConversation c
  end.

(** The world after a sequence of events, whatever they answer. *)
Fixpoint after (es : list Event) (w : World) : World :=
  match es with
  | [] => w
  | e :: es' => after es' (exec (handle e) w)
  end.

(** ** Assertions *)

(** The weakest precondition of a method for a postcondition [Q] of its
    normal outcome and [R] of its exceptional one. *)
Definition wp {A} (m : M A) (Q : A -> World -> Prop)
  (R : jsstring -> World -> Prop) (w : World) : Prop :=
  match m w with
  | (Normal a, w') => Q a w'
  | (Throw e, w') => R e w'
  end.

(** The method returns normally. *)
Definition returns {A} (m : M A) : Prop :=
  forall w, exists a w', m w = (Normal a, w').

Definition statusOf (listening speaking : bool) : jsstring :=
  if listening then js "listening"
  else if speaking then js "speaking"
  else js "idle".

Definition scoreInRange (m : Message) : Prop :=
  match pronunciationScore m with
  | Some z => (0 <= z <= 100)%Z
  | None => True
  end.

Definition scoresInRange (c : Conversation) : Prop :=
  Forall scoreInRange (messages c).

Definition wellKept {A} (P : A -> Prop) (v : option (item A)) : Prop :=
  match v with
  | Some (Json a) => P a
  | _ => True
  end.

(** What holds of the component between any two events. *)
Record Invariant (w : World) : Prop := mkInvariant {
  inv_bound : (List.length (conversationHistory (self w)) <= 50)%nat;
  inv_status :
    conversationStatus (self w)
    = statusOf (isListening (self w)) (isSpeaking (self w));
  inv_active :
    isConversationActive (self w) = true ->
    currentConversation (self w) <> None;
  inv_scores : Forall scoresInRange (conversationHistory (self w));
  inv_current :
    match currentConversation (self w) with
    | Some c => scoresInRange c
    | None => True
    end;
  inv_stored :
    wellKept (fun h => (List.length h <= 50)%nat /\ Forall scoresInRange h)
      (key_conversationHistory (localStorage w));
  inv_snapshot :
    wellKept scoresInRange (key_currentConversation (localStorage w))
}.

(** A world on startup: the fields as initialised, over a store that is
    empty or was written by the component. *)
Definition startup (w : World) : Prop :=
  self w = newTutor (synthesis (self w))
  /\ wellKept (fun h => (List.length h <= 50)%nat /\ Forall scoresInRange h)
       (key_conversationHistory (localStorage w))
  /\ wellKept scoresInRange (key_currentConversation (localStorage w)).

(** The method returns normally and keeps the invariant. *)
Definition keeps {A} (m : M A) : Prop :=
  forall w, Invariant w -> wp m (fun _ => Invariant) (fun _ _ => False) w.

(** The preview of a conversation that is there, and whether it matches a
    (lower-cased) query. *)
Definition previewText (c : Conversation) : jsstring :=
  match filter isUser (messages c) with
  | [] => js "No messages"
  | m :: _ =>
      if (50 <? List.length (text m))%nat
      then firstn 50 (text m) ++ js "..."
      else text m
  end.

Definition matchesQuery (q : jsstring) (c : Conversation) : bool :=
  includes (toLowerCase (topic c)) q
  || includes (toLowerCase (previewText c)) q.

(** The number of space characters of a string. *)
Definition spaces (s : jsstring) : nat := count_occ N.eq_dec s 32.

(** A component looking at its history with a query typed in. *)
Definition searchingWorld : World :=
  mkWorld
    (mkTutor history false false false (js "idle") None
       [greetingOnly; numbered 3] [] None (js "Mess") (js "food") [] [] None
       None None)
    emptyStorage (fun _ => false) 0 (fun _ => 0) 0 (fun _ => 0) 0 [] [].

(** A component in conversation: the greeting has been said. *)
Definition talkingWorld : World := exec startNewConversation w0.

Definition talkingConversation : Conversation :=
  match currentConversation (self talkingWorld) with
  | Some c => c
  | None => greetingOnly
  end.

(** The same component over a store that takes no more writes. *)
Definition fullStoreWorld : World :=
  mkWorld (self talkingWorld) (localStorage talkingWorld) (fun _ => true)
    (writes talkingWorld) (clock talkingWorld) (ticks talkingWorld)
    (random talkingWorld) (draws talkingWorld) (console talkingWorld)
    (timers talkingWorld).

(** The same component with a recognizer, listening. *)
Definition listeningWorld : World :=
  exec recognition_onstart (exec (initSpeechRecognition true) talkingWorld).

(** A short session: startup, one utterance, its reply, the end. *)
Definition sampleSession : list Event :=
  [OnInit true;
   RecognitionResult 0 [(js "he go to school", true)];
   ReplyTimer (js "he go to school");
   EndConversation].

Definition sampleArchived : Conversation :=
  hd greetingOnly (conversationHistory (self (after sampleSession w0))).

(** A topic the tables do not list. *)
Definition sportsWorld : World :=
  mkWorld (set_selectedTopic (js "sports") (newTutor None)) emptyStorage
    (fun _ => false) 0 (fun _ => 0) 0 (fun _ => 6004799503160661) 0 [] [].

(** Two utterances, one of them without a score. *)
Definition scoredAndMissing : Conversation :=
  with_messages greetingOnly
    [mkMessage 4 user (js "I like pasta.") 5 None (Some 85%Z)
       (Some (js "Great job! Your pronunciation is clear and understandable."))
       None;
     mkMessage 6 user (js "Pizza too.") 7 None None None None].

(** The history searched by topic, in capitals. *)
Definition topicSearchWorld : World :=
  mkWorld
    (mkTutor history false false false (js "idle") None
       [greetingOnly; numbered 3] [] None (js "FOOD") (js "food") [] [] None
       None None)
    emptyStorage (fun _ => false) 0 (fun _ => 0) 0 (fun _ => 0) 0 [] [].

(** A store whose history does not parse. *)
Definition garbledStorage : Storage := mkStorage (Some Garbled) None.

(* ===================================================================== *)
(** * Reasoning about methods *)
(* ===================================================================== *)

Unset Implicit Arguments.

(** Case analysis on the innermost scrutinee of the goal. *)
Ltac case_step :=
  match goal with
  | |- context [match ?x with _ => _ end] =>
      lazymatch x with
      | context [match _ with _ => _ end] => fail
      | _ => destruct x eqn:?
      end
  end.

(** Symbolic execution of a method whose world has been taken apart. *)
Ltac run :=
  repeat (cbn -[firstn Nat.ltb js property List.app] in *; try case_step).

Ltac open_world w :=
  let t := fresh "t" in
  destruct w as [t ? ? ? ? ? ? ? ? ?]; destruct t.

(* ===================================================================== *)
(** * Properties of the assessment engine *)
(* ===================================================================== *)

Section Assessment.

Local Open Scope Z_scope.

Lemma Math_round_integer (z : Z) : Math_round z 1 = z.
Proof.
  unfold Math_round.
  replace (2 * z + 1) with (1 + z * (2 * 1)) by lia.
  rewrite Z.div_add by lia.
  reflexivity.
Qed.

Lemma clamp_range (z : Z) : 0 <= Z.max 0 (Z.min 100 z) <= 100.
Proof. lia. Qed.

End Assessment.

(** C1 (as stated, refuted): on "he go to school" the correction is not the
    advisory of the regex rule for he, she, it. *)
Lemma generateCorrection_he_go_not_advice :
  result (generateCorrection (js "he go to school")) w0
  <> Normal (Some advice_singular).
Proof. vm_compute. discriminate. Qed.

(** C1 (amended): on "he go to school" the table entry 'he go' is the first
    entry, in the order of the table, contained in the lower-cased text, so
    the result is "Did you mean: 'he goes'?" and nothing else changes; the
    regex rule for he, she, it matches the text as well but is only tried
    when no entry of the table does. *)
Theorem generateCorrection_he_go_table_hit :
  (forall w,
     generateCorrection (js "he go to school") w
     = (Normal (Some (js "Did you mean: 'he goes'?")), w))
  /\ find (fun entry => includes (toLowerCase (js "he go to school")) (fst entry))
       corrections
     = Some (js "he go", js "he goes")
  /\ Regex.test re_singular_go (toLowerCase (js "he go to school")) = true.
Proof.
  split; [| split].
  - intro w. vm_compute. reflexivity.
  - vm_compute. reflexivity.
  - vm_compute. reflexivity.
Qed.

(** The regex rule is what answers when no entry of the table is contained
    in the text. *)
Example generateCorrection_it_go :
  forall w,
    generateCorrection (js "it go to school") w
    = (Normal (Some advice_singular), w).
Proof. intro w. vm_compute. reflexivity. Qed.

(** C2: whatever the text, [assessPronunciation] returns, leaves the world
    as it is, and its score is an integer between 0 and 100. *)
Theorem assessPronunciation_in_range :
  forall (text : jsstring) (w : World),
    exists score : Z,
      assessPronunciation text w = (Normal score, w)
      /\ (0 <= score <= 100)%Z.
Proof.
  intros text w.
  unfold assessPronunciation, tryCatch, ret.
  eexists. split.
  - reflexivity.
  - apply clamp_range.
Qed.

(** The bounds are not only the clamp's: the score before clamping lies
    between 50 and 115, so the lower clamp is never what decides. *)
Lemma assessPronunciation_at_least_50 :
  forall (text : jsstring) (w : World),
    exists score : Z,
      result (assessPronunciation text) w = Normal score
      /\ (50 <= score)%Z.
Proof.
  intros text w.
  unfold result, assessPronunciation, tryCatch, ret. cbn [fst].
  eexists. split; [reflexivity |].
  rewrite Math_round_integer.
  repeat match goal with
         | |- context [if ?b then _ else _] => destruct b
         | |- context [match ?o with Some _ => _ | None => _ end] => destruct o
         end; lia.
Qed.

(** ** Neither function looks at the world *)

Lemma generateCorrection_pure (text : jsstring) :
  exists r, forall w, generateCorrection text w = (Normal r, w).
Proof.
  unfold generateCorrection, tryCatch, ret.
  destruct (find _ corrections) as [[bad good] |].
  - eexists; intro w; reflexivity.
  - destruct (Regex.test re_plural_goes _).
    + eexists; intro w; reflexivity.
    + destruct (Regex.test re_singular_go _); eexists; intro w; reflexivity.
Qed.

Lemma assessPronunciation_pure (text : jsstring) :
  exists z, forall w, assessPronunciation text w = (Normal z, w).
Proof.
  unfold assessPronunciation, tryCatch, ret.
  eexists; intro w; reflexivity.
Qed.

(** C7: the correction and the score of a text are the same in any two
    worlds (whatever the clock, the random source, the store and the fields
    of the component hold), and computing them changes nothing. *)
Theorem assessment_deterministic :
  forall (text : jsstring) (w1 w2 : World),
    result (generateCorrection text) w1 = result (generateCorrection text) w2
    /\ exec (generateCorrection text) w1 = w1
    /\ result (assessPronunciation text) w1 = result (assessPronunciation text) w2
    /\ exec (assessPronunciation text) w1 = w1.
Proof.
  intros text w1 w2.
  destruct (generateCorrection_pure text) as [r Hr].
  destruct (assessPronunciation_pure text) as [z Hz].
  unfold result, exec.
  rewrite !Hr, !Hz. simpl. auto.
Qed.

(** The response generator, by contrast, depends on the random source. *)
Example generateAIResponse_depends_on_random :
  let w1 := mkWorld (newTutor None) emptyStorage (fun _ => false) 0
              (fun _ => 0) 0 (fun _ => 0) 0 [] [] in
  let w2 := mkWorld (newTutor None) emptyStorage (fun _ => false) 0
              (fun _ => 0) 0 (fun _ => 2 ^ 52) 0 [] [] in
  result (generateAIResponse (js "I love it")) w1
  <> result (generateAIResponse (js "I love it")) w2.
Proof. vm_compute. discriminate. Qed.

(** ** Texts of white space *)

Lemma whitespace_not_word (c : N) :
  isWhiteSpace c = true -> isWordChar c = false.
Proof.
  unfold isWhiteSpace, isWordChar, between. intro H.
  repeat rewrite ?orb_true_iff, ?andb_true_iff, ?N.leb_le, ?N.eqb_eq in H.
  repeat rewrite ?orb_false_iff, ?andb_false_iff, ?N.leb_gt, ?N.eqb_neq.
  lia.
Qed.

Lemma whitespace_lowerUnit (c : N) :
  isWhiteSpace c = true -> lowerUnit c = [c].
Proof.
  unfold isWhiteSpace, lowerUnit, between. intro H.
  repeat rewrite ?orb_true_iff, ?andb_true_iff, ?N.leb_le, ?N.eqb_eq in H.
  replace (N.leb 65 c && N.leb c 90) with false.
  2:{ symmetry. rewrite andb_false_iff, !N.leb_gt. lia. }
  replace (N.eqb c 304) with false by (symmetry; rewrite N.eqb_neq; lia).
  replace (N.eqb c 8490) with false by (symmetry; rewrite N.eqb_neq; lia).
  reflexivity.
Qed.

Section Blank.

Variable text : jsstring.
Hypothesis blank : forallb isWhiteSpace text = true.

Lemma trim_blank : trim text = [].
Proof.
  unfold trim.
  assert (E : trimStart text = []).
  { induction text as [| c s IH]; [reflexivity |].
    simpl in blank |- *. apply andb_true_iff in blank as [Hc Hs].
    rewrite Hc. auto. }
  rewrite E. reflexivity.
Qed.

Lemma toLowerCase_blank : toLowerCase text = text.
Proof.
  unfold toLowerCase.
  induction text as [| c s IH]; [reflexivity |].
  simpl in blank |- *. apply andb_true_iff in blank as [Hc Hs].
  rewrite (whitespace_lowerUnit _ Hc), IH by assumption. reflexivity.
Qed.

Lemma includes_blank (p : N) (pat : jsstring) :
  isWhiteSpace p = false -> includes text (p :: pat) = false.
Proof.
  intro Hp.
  induction text as [| c s IH]; [reflexivity |].
  simpl in blank |- *. apply andb_true_iff in blank as [Hc Hs].
  rewrite IH by assumption.
  destruct (N.eqb_spec p c) as [-> | _]; [congruence | reflexivity].
Qed.

Lemma matchHere_complexWord_blank (prev : option N) (s : jsstring) :
  Regex.isWordAt (hd_error s) = false ->
  Regex.matchHere re_complexWord prev s = None.
Proof.
  intro H.
  unfold Regex.matchHere, re_complexWord, Regex.seq, Regex.wordb.
  rewrite H.
  destruct (xorb _ _); [| reflexivity].
  destruct s as [| x s']; [reflexivity |].
  simpl in H.
  cbn [Regex.atLeast Regex.seq Regex.cls].
  rewrite H. reflexivity.
Qed.

Lemma matchAll_blank : Regex.matchAll re_complexWord text = None.
Proof.
  unfold Regex.matchAll.
  assert (E : forall prev skip,
             Regex.matchesFrom re_complexWord prev text skip = []).
  { induction text as [| c s IH]; intros prev skip.
    - simpl. rewrite matchHere_complexWord_blank by reflexivity.
      destruct skip; reflexivity.
    - simpl in blank. apply andb_true_iff in blank as [Hc Hs].
      cbn [Regex.matchesFrom].
      rewrite matchHere_complexWord_blank
        by (simpl; apply whitespace_not_word; assumption).
      destruct skip; apply IH; assumption. }
  rewrite E. reflexivity.
Qed.

Lemma found_blank :
  filter (fun s => includes (toLowerCase text) s) challengingSounds = [].
Proof.
  rewrite toLowerCase_blank.
  change challengingSounds with [[116; 104]; [114]; [108]; [118]; [119]].
  cbn [filter].
  rewrite !includes_blank by reflexivity.
  reflexivity.
Qed.

End Blank.

(** C9: a text that is empty or made of white space only scores exactly 50:
    trimmed it is empty, splitting the empty string gives one (empty) word,
    a count of 1 costs the 20 points of a short utterance, and no bonus
    applies. *)
Theorem assessPronunciation_blank :
  forall (text : jsstring) (w : World),
    forallb isWhiteSpace text = true ->
    List.length (Regex.split (trim text) re_spaces) = 1%nat
    /\ assessPronunciation text w = (Normal 50%Z, w).
Proof.
  intros text w H.
  unfold assessPronunciation.
  rewrite (trim_blank _ H), (matchAll_blank _ H), (found_blank _ H).
  change (js ",") with [44]. change (js ".") with [46].
  rewrite !(includes_blank _ H) by reflexivity.
  split; reflexivity.
Qed.

Lemma assessPronunciation_blank_witness :
  forallb isWhiteSpace [32; 9; 160; 8195] = true
  /\ assessPronunciation [32; 9; 160; 8195] w0 = (Normal 50%Z, w0).
Proof.
  split; [reflexivity |].
  apply (assessPronunciation_blank [32; 9; 160; 8195] w0). reflexivity.
Defined.

(* ===================================================================== *)
(** * Properties of the response generator *)
(* ===================================================================== *)

(** A product that 53 bits hold is not rounded. *)
Lemma binary64_exact (p : N) : p < 2 ^ 53 -> binary64 p = p.
Proof.
  intro Hp. unfold binary64.
  assert (Hs : N.log2 p - 52 = 0).
  { destruct (N.eq_dec p 0) as [-> | Hn]; [reflexivity |].
    assert (N.log2 p < 53); [| lia].
    apply N.log2_lt_pow2; lia. }
  rewrite Hs. change (2 ^ 0) with 1.
  rewrite N.div_1_r, N.mod_1_r. cbn. lia.
Qed.

(** Rounding up never reaches the next multiple of 2^53: the product of a
    draw with [n] stays below [n] as a binary64 number, too. *)
Lemma round_up_lt (p n A B m q : N) :
  A * B = 2 ^ 53 -> A * 2 ^ 52 <= p -> p + n <= n * (A * B) ->
  p = A * q + m -> m < A -> A <= 2 * m -> 0 < n ->
  (q + 1) * A < n * (A * B).
Proof.
  change (2 ^ 53) with (2 * 2 ^ 52). generalize (2 ^ 52). intros T.
  intros HAB Hlo Hp Hdm Hm Hup Hn.
  assert (HA : 0 < A) by lia.
  assert (Hq : q + 1 <= n * B) by nia.
  assert (Hne : q + 1 <> n * B).
  { intro E.
    assert (m + n <= A) by nia.
    assert (A * T < n * (A * B)) by nia.
    nia. }
  nia.
Qed.

Lemma binary64_lt (r n : N) :
  r < 2 ^ 53 -> 0 < n -> n <= 2 ^ 53 -> binary64 (r * n) < n * 2 ^ 53.
Proof.
  intros Hr Hn Hn'.
  set (p := r * n).
  assert (Hp : p + n <= n * 2 ^ 53) by (subst p; nia).
  destruct (N.lt_ge_cases p (2 ^ 53)) as [Hsmall | Hbig].
  - rewrite binary64_exact by assumption. lia.
  - unfold binary64.
    assert (Hpos : 0 < p) by lia.
    destruct (N.log2_spec p Hpos) as [Hlo Hhi].
    assert (H53 : 53 <= N.log2 p).
    { apply N.log2_le_pow2; assumption. }
    assert (H105 : N.log2 p < 106).
    { apply N.log2_lt_pow2; [assumption |].
      change (2 ^ 106) with (2 ^ 53 * 2 ^ 53). nia. }
    set (s := N.log2 p - 52).
    assert (Es : N.log2 p = s + 52) by lia.
    assert (Hs : 1 <= s <= 53) by lia.
    rewrite Es, N.pow_add_r in Hlo.
    assert (E53 : 2 ^ s * 2 ^ (53 - s) = 2 ^ 53).
    { rewrite <- N.pow_add_r. f_equal. lia. }
    assert (HA : 2 ^ s <> 0) by (apply N.pow_nonzero; discriminate).
    pose proof (N.div_mod p (2 ^ s) HA) as Hdm.
    pose proof (N.mod_lt p (2 ^ s) HA) as Hm.
    rewrite <- E53 in Hp |- *.
    set (A := 2 ^ s) in *. set (B := 2 ^ (53 - s)) in *.
    set (q := p / A) in *. set (m := p mod A) in *.
    assert (Hdown : q * A < n * (A * B)) by (clearbody p q m A B; nia).
    destruct (2 * m <? A) eqn:E1; [exact Hdown |].
    apply N.ltb_ge in E1.
    pose proof (round_up_lt p n A B m q E53 Hlo Hp Hdm Hm E1 Hn) as Hup.
    destruct (A <? 2 * m), (N.even q); assumption.
Qed.

Lemma randomIndex_lt (r : N) (n : nat) :
  r < 2 ^ 53 -> (0 < n)%nat -> N.of_nat n <= 2 ^ 53 ->
  (randomIndex r n < n)%nat.
Proof.
  intros Hr Hn Hn'. unfold randomIndex.
  assert (binary64 (r * N.of_nat n) / 2 ^ 53 < N.of_nat n); [| lia].
  apply N.Div0.div_lt_upper_bound.
  rewrite (N.mul_comm (2 ^ 53)). apply binary64_lt; lia.
Qed.

(** A draw the exact product and the rounded one send to different
    entries of a pool of three. *)
Example randomIndex_rounds :
  randomIndex 6004799503160661 3 = 2%nat
  /\ N.to_nat (6004799503160661 * 3 / 2 ^ 53) = 1%nat.
Proof. vm_compute. split; reflexivity. Qed.

(** C8: with the topic food, the reply to "I love it" (three words, no
    question mark) is the request to elaborate followed by one of the food
    follow-ups, whatever the random draw; and the text gets no correction:
    no entry of the table is contained in it and neither agreement rule
    matches. *)
Theorem food_I_love_it :
  forall w : World,
    selectedTopic (self w) = js "food" ->
    List.length (split (js "I love it") (js " ")) = 3%nat
    /\ includes (js "I love it") (js "?") = false
    /\ (exists pool reply,
          property responses (js "food") = Some pool
          /\ In reply pool
          /\ generateAIResponse (js "I love it") w
             = (Normal (js "I see. Could you tell me more? " ++ reply),
                put_draws (S (draws w)) w))
    /\ generateCorrection (js "I love it") w = (Normal None, w)
    /\ find (fun entry => includes (toLowerCase (js "I love it")) (fst entry))
         corrections = None
    /\ Regex.test re_plural_goes (toLowerCase (js "I love it")) = false
    /\ Regex.test re_singular_go (toLowerCase (js "I love it")) = false.
Proof.
  intros w Htopic.
  split; [vm_compute; reflexivity |].
  split; [vm_compute; reflexivity |].
  split.
  - destruct (property responses (js "food")) as [pool |] eqn:Hpool;
      [| vm_compute in Hpool; discriminate].
    set (r := random w (draws w) mod 2 ^ 53).
    exists pool, (nth (randomIndex r (List.length pool)) pool (js "undefined")).
    split; [reflexivity |].
    split.
    + vm_compute in Hpool. injection Hpool as <-.
      apply nth_In. apply randomIndex_lt.
      * subst r. apply N.mod_lt. discriminate.
      * cbn [List.length]. lia.
      * vm_compute. discriminate.
    + unfold generateAIResponse, tryCatch, bind, gets, Math_random.
      rewrite Htopic, Hpool.
      replace (includes (js "I love it") (js "?")) with false
        by (vm_compute; reflexivity).
      replace (List.length (split (js "I love it") (js " ")) <? 5)%nat with true
        by (vm_compute; reflexivity).
      reflexivity.
  - repeat split; try (vm_compute; reflexivity).
Qed.

Lemma food_I_love_it_witness :
  selectedTopic (self foodWorld) = js "food"
  /\ generateCorrection (js "I love it") foodWorld = (Normal None, foodWorld).
Proof.
  split; [reflexivity |].
  apply (food_I_love_it foodWorld). reflexivity.
Defined.

(* ===================================================================== *)
(** * Properties of the statistics *)
(* ===================================================================== *)

Lemma filter_isUser_fillScore (ms : list Message) :
  filter isUser (List.map fillScore ms) = List.map fillScore (filter isUser ms).
Proof.
  induction ms as [| m ms IH]; [reflexivity |].
  cbn [List.map filter].
  change (isUser (fillScore m)) with (isUser m).
  destruct (isUser m); cbn [List.map]; rewrite IH; reflexivity.
Qed.

Lemma total_fillScore (ms : list Message) (z : Z) :
  fold_left (fun s m => (s + scoreOrZero m)%Z) (List.map fillScore ms) z
  = fold_left (fun s m => (s + scoreOrZero m)%Z) ms z.
Proof.
  revert z. induction ms as [| m ms IH]; intro z; [reflexivity |].
  simpl. rewrite IH. reflexivity.
Qed.

Lemma total_sumOfScores (ms : list Message) (z : Z) :
  fold_left (fun s m => (s + scoreOrZero m)%Z) ms z = (z + sumOfScores ms)%Z.
Proof.
  revert z. induction ms as [| m ms IH]; intro z.
  - cbn. lia.
  - cbn [fold_left sumOfScores]. rewrite IH. unfold scoreOrZero. lia.
Qed.

Lemma Math_round_nearest (total n : Z) :
  (0 < n)%Z ->
  (2 * n * Math_round total n <= 2 * total + n
   < 2 * n * (Math_round total n + 1))%Z.
Proof.
  intro Hn. unfold Math_round.
  pose proof (Z.div_mod (2 * total + n) (2 * n) ltac:(lia)) as Hdm.
  pose proof (Z.mod_pos_bound (2 * total + n) (2 * n) ltac:(lia)) as Hm.
  lia.
Qed.

(** A message without a score counts as one with the score 0. *)
Lemma getAveragePronunciationScore_fillScore (c : Conversation) (w : World) :
  getAveragePronunciationScore
    (Some (with_messages c (List.map fillScore (messages c)))) w
  = getAveragePronunciationScore (Some c) w.
Proof.
  unfold getAveragePronunciationScore.
  cbn [messages with_messages].
  rewrite filter_isUser_fillScore, total_fillScore, length_map.
  reflexivity.
Qed.

(** C10: a conversation without user messages (an empty one included) has
    the average 0, no division taking place.  With user messages, and
    scores as the assessment gives them (between 0 and 100, where the sum
    and the quotient of the program's numbers are the exact ones), the
    average is the sum of the scores, a missing score counting 0, divided
    by the number of all user messages, those without a score included,
    and rounded to the nearest integer, a half going up.  Nothing changes
    in either case. *)
Theorem getAveragePronunciationScore_no_users :
  forall (c : Conversation) (w : World),
    let users := filter isUser (messages c) in
    let n := Z.of_nat (List.length users) in
    (users = [] ->
     getAveragePronunciationScore (Some c) w = (Normal 0%Z, w))
    /\ (users <> [] -> scoresInRange c ->
        exists average,
          getAveragePronunciationScore (Some c) w = (Normal average, w)
          /\ average = Math_round (sumOfScores users) n
          /\ (2 * n * average <= 2 * sumOfScores users + n
              < 2 * n * (average + 1))%Z).
Proof.
  intros c w users n. split.
  - intro H. unfold getAveragePronunciationScore. fold users.
    rewrite H. reflexivity.
  - intros Hne _.
    exists (Math_round (sumOfScores users) n).
    split; [| split; [reflexivity |]].
    + unfold getAveragePronunciationScore. fold users.
      destruct users as [| m ms] eqn:E; [congruence |].
      cbn [List.length Nat.eqb].
      rewrite total_sumOfScores. reflexivity.
    + apply Math_round_nearest. subst n.
      destruct users; [congruence | cbn [List.length]; lia].
Qed.

Lemma getAveragePronunciationScore_no_users_witness :
  filter isUser (messages greetingOnly) = []
  /\ getAveragePronunciationScore (Some greetingOnly) w0 = (Normal 0%Z, w0)
  /\ scoresInRange scoredAndMissing
  /\ getAveragePronunciationScore (Some scoredAndMissing) w0
     = (Normal 43%Z, w0).
Proof.
  assert (Hrange : scoresInRange scoredAndMissing).
  { repeat constructor; cbn; lia. }
  split; [reflexivity |].
  split.
  - apply (proj1 (getAveragePronunciationScore_no_users greetingOnly w0)).
    reflexivity.
  - split; [exact Hrange |].
    pose proof (proj2 (getAveragePronunciationScore_no_users
                         scoredAndMissing w0)) as H.
    destruct (H ltac:(discriminate) Hrange) as (average & Hrun & Havg & _).
    rewrite Havg in Hrun. exact Hrun.
Defined.

(** With user messages the average is the rounded quotient, a missing score
    adding nothing to the total. *)
Example getAveragePronunciationScore_mixed :
  let u s := mkMessage 0 user (js "hello") 0 None s None None in
  result (getAveragePronunciationScore
            (Some (with_messages greetingOnly [u (Some 85%Z); u None; u (Some 90%Z)])))
    w0
  = Normal 58%Z.
Proof. vm_compute. reflexivity. Qed.

(* ===================================================================== *)
(** * Properties of the conversation store *)
(* ===================================================================== *)

(** ** Running a method step by step *)

Lemma bind_Normal {A B} (m : M A) (k : A -> M B) (w w' : World) (a : A) :
  m w = (Normal a, w') -> bind m k w = k a w'.
Proof. intro H. unfold bind. rewrite H. reflexivity. Qed.

Lemma bind_gets {A B} (f : Tutor -> A) (k : A -> M B) (w : World) :
  bind (gets f) k w = k (f (self w)) w.
Proof. reflexivity. Qed.

Lemma bind_update {B} (f : Tutor -> Tutor) (k : unit -> M B) (w : World) :
  bind (update f) k w = k tt (exec (update f) w).
Proof. reflexivity. Qed.

Lemma bind_ret {A B} (a : A) (k : A -> M B) (w : World) :
  bind (ret a) k w = k a w.
Proof. reflexivity. Qed.

Lemma bind_Date_now {B} (k : N -> M B) (w : World) :
  bind Date_now k w = k (clock w (ticks w)) (put_ticks (S (ticks w)) w).
Proof. reflexivity. Qed.

(** ** Lists cut at 50 *)

Lemma firstn_if (A : Type) (l : list A) :
  (if (50 <? List.length l)%nat then firstn 50 l else l) = firstn 50 l.
Proof.
  destruct (Nat.ltb_spec 50 (List.length l)); [reflexivity |].
  symmetry. apply firstn_all2. lia.
Qed.

Lemma firstn_app_firstn (A : Type) (n : nat) (l m : list A) :
  firstn n (l ++ firstn n m) = firstn n (l ++ m).
Proof.
  rewrite !firstn_app, firstn_firstn.
  replace (Nat.min (n - List.length l) n) with (n - List.length l)%nat by lia.
  reflexivity.
Qed.

(** ** What the helpers leave alone *)

Lemma stopListening_run (w : World) :
  exists w',
    stopListening w = (Normal tt, w')
    /\ conversationHistory (self w') = conversationHistory (self w)
    /\ currentConversation (self w') = currentConversation (self w)
    /\ localStorage w' = localStorage w.
Proof.
  open_world w.
  unfold stopListening, updateStatus, tryCatch, bind, gets, update.
  run; eexists; repeat split; reflexivity.
Qed.

Lemma showSuccess_run (msg : jsstring) (w : World) :
  exists w',
    showSuccess msg w = (Normal tt, w')
    /\ self w' = set_successMessage msg (self w)
    /\ localStorage w' = localStorage w.
Proof. eexists. repeat split. Qed.

Lemma generateGreeting_run (w : World) :
  generateGreeting w
  = (Normal
       match property greetings (selectedTopic (self w)) with
       | Some g => g
       | None => js "Hello! Let's practice English. What would you like to talk about?"
       end, w).
Proof.
  unfold generateGreeting. rewrite bind_gets.
  destruct (property greetings _); reflexivity.
Qed.

(** ** Archiving *)

(** One archival: the conversation, closed, goes to the front and the list
    is cut at 50, also when the store refuses the write. *)
Lemma saveConversation_run (c : Conversation) (w : World) :
  exists w',
    saveConversation c w = (Normal tt, w')
    /\ conversationHistory (self w')
       = firstn 50 (closedAt (clock w (ticks w)) c :: conversationHistory (self w))
    /\ currentConversation (self w') = currentConversation (self w).
Proof.
  rewrite <- firstn_if.
  open_world w.
  unfold saveConversation, closedAt, tryCatch, bind, gets, update, setItem,
    showError, console_error, setTimeout.
  run; eexists; (split; [reflexivity |]); split; reflexivity.
Qed.

Lemma archiveAll_run (cs : list Conversation) :
  forall w : World,
    (List.length (conversationHistory (self w)) <= 50)%nat ->
    exists w' closed,
      archiveAll cs w = (Normal tt, w')
      /\ Forall2 closes cs closed
      /\ conversationHistory (self w')
         = firstn 50 (rev closed ++ conversationHistory (self w)).
Proof.
  induction cs as [| c cs IH]; intros w Hw.
  - exists w, []. repeat split; [constructor |].
    cbn [rev app]. symmetry. apply firstn_all2. exact Hw.
  - destruct (saveConversation_run c w) as (w1 & Hrun & Hh & _).
    destruct (IH w1) as (w' & closed & Hrun' & Hcl & Hh').
    { rewrite Hh. rewrite length_firstn. lia. }
    exists w', (closedAt (clock w (ticks w)) c :: closed).
    split; [| split].
    + cbn [archiveAll]. erewrite bind_Normal by exact Hrun. exact Hrun'.
    + constructor; [eexists; reflexivity | exact Hcl].
    + rewrite Hh', Hh, firstn_app_firstn.
      cbn [rev]. rewrite <- app_assoc. reflexivity.
Qed.

Lemma archiveAll_run_nonempty (c : Conversation) (cs : list Conversation)
  (w : World) :
  exists w' closed,
    archiveAll (c :: cs) w = (Normal tt, w')
    /\ Forall2 closes (c :: cs) closed
    /\ conversationHistory (self w')
       = firstn 50 (rev closed ++ conversationHistory (self w)).
Proof.
  destruct (saveConversation_run c w) as (w1 & Hrun & Hh & _).
  destruct (archiveAll_run cs w1) as (w' & closed & Hrun' & Hcl & Hh').
  { rewrite Hh, length_firstn. lia. }
  exists w', (closedAt (clock w (ticks w)) c :: closed).
  split; [| split].
  - cbn [archiveAll]. erewrite bind_Normal by exact Hrun. exact Hrun'.
  - constructor; [eexists; reflexivity | exact Hcl].
  - rewrite Hh', Hh, firstn_app_firstn.
    cbn [rev]. rewrite <- app_assoc. reflexivity.
Qed.

(** C3: any sequence of archivals (a non-empty one from any history, the
    empty one from a history of at most 50 entries) returns and leaves a
    history of at most 50 entries that is the archived conversations
    (closed), the last archived first, followed by the old history, cut at
    50; archiving into a full history puts the new conversation first and
    drops the last, oldest, entry. *)
Theorem history_bounded_most_recent_first :
  forall (cs : list Conversation) (w : World),
    cs <> [] \/ (List.length (conversationHistory (self w)) <= 50)%nat ->
    let w' := exec (archiveAll cs) w in
    result (archiveAll cs) w = Normal tt
    /\ (List.length (conversationHistory (self w')) <= 50)%nat
    /\ (exists closed,
          Forall2 closes cs closed
          /\ conversationHistory (self w')
             = firstn 50 (rev closed ++ conversationHistory (self w)))
    /\ (forall c,
          List.length (conversationHistory (self w)) = 50%nat ->
          conversationHistory (self (exec (saveConversation c) w))
          = closedAt (clock w (ticks w)) c
              :: removelast (conversationHistory (self w))).
Proof.
  intros cs w Hw w'. subst w'. unfold result, exec.
  assert (Hrun : exists w' closed,
             archiveAll cs w = (Normal tt, w')
             /\ Forall2 closes cs closed
             /\ conversationHistory (self w')
                = firstn 50 (rev closed ++ conversationHistory (self w))).
  { destruct cs as [| c cs].
    - destruct Hw as [Hw | Hw]; [congruence |]. apply archiveAll_run, Hw.
    - apply archiveAll_run_nonempty. }
  destruct Hrun as (w' & closed & Hrun & Hcl & Hh).
  rewrite Hrun. cbn [fst snd].
  split; [reflexivity |].
  split; [rewrite Hh, length_firstn; lia |].
  split; [exists closed; auto |].
  intros c H50.
  destruct (saveConversation_run c w) as (w1 & Hrun1 & Hh1 & _).
  rewrite Hrun1. cbn [snd]. rewrite Hh1.
  change 50%nat with (S 49). rewrite firstn_cons. f_equal.
  rewrite removelast_firstn_len, H50. reflexivity.
Qed.

Lemma history_bounded_witness :
  ([numbered 51; numbered 52] <> []
   \/ (List.length (conversationHistory (self fullWorld)) <= 50)%nat)
  /\ (List.length
        (conversationHistory
           (self (exec (archiveAll [numbered 51; numbered 52]) fullWorld)))
      <= 50)%nat.
Proof.
  assert (H : [numbered 51; numbered 52] <> []
              \/ (List.length (conversationHistory (self fullWorld)) <= 50)%nat)
    by (right; vm_compute; lia).
  split; [exact H |].
  apply (history_bounded_most_recent_first [numbered 51; numbered 52] fullWorld H).
Defined.

(** Conversation 51 archived into the full history 50..1: 51 comes first,
    1 is gone, and the store holds the same 50 entries. *)
Example archive_into_full_history :
  let w' := exec (saveConversation (numbered 51)) fullWorld in
  List.map c_id (conversationHistory (self w'))
  = List.map N.of_nat (rev (seq 2 50))
  /\ key_conversationHistory (localStorage w')
     = Some (JSON_stringify_all (conversationHistory (self w'))).
Proof. vm_compute. split; reflexivity. Qed.

(** ** Ending a conversation *)

Lemma endConversation_run (w : World) :
  exists w',
    endConversation w = (Normal tt, w')
    /\ currentConversation (self w') = None
    /\ match currentConversation (self w) with
       | Some c =>
           match messages c with
           | [] =>
               conversationHistory (self w') = conversationHistory (self w)
               /\ localStorage w' = localStorage w
           | _ :: _ =>
               conversationHistory (self w')
               = firstn 50
                   (with_endTime c (Some (clock w (ticks w)))
                    :: conversationHistory (self w))
           end
       | None =>
           conversationHistory (self w') = conversationHistory (self w)
           /\ localStorage w' = localStorage w
       end.
Proof.
  unfold endConversation, tryCatch.
  rewrite bind_gets.
  assert (tail : forall w1,
            exists w',
              (update (set_isConversationActive false) ;;
               stopListening ;;
               update (set_currentConversation None) ;;
               showSuccess (js "Conversation ended and saved to history")) w1
              = (Normal tt, w')
              /\ currentConversation (self w') = None
              /\ conversationHistory (self w') = conversationHistory (self w1)
              /\ localStorage w' = localStorage w1).
  { intro w1. rewrite bind_update.
    destruct (stopListening_run (exec (update (set_isConversationActive false)) w1))
      as (w2 & Hrun & Hh & _ & Hst).
    erewrite bind_Normal by exact Hrun.
    rewrite bind_update.
    eexists. split; [reflexivity |].
    cbn. rewrite Hh, Hst.
    open_world w1. auto. }
  destruct (currentConversation (self w)) as [c |] eqn:Hcur.
  - destruct (messages c) as [| m ms] eqn:Hms; cbn [List.length].
    + change (0 <? 0)%nat with false. cbv iota.
      rewrite bind_ret.
      destruct (tail w) as (w' & Hrun & Hc & Hh & Hst).
      exists w'. rewrite Hrun. auto.
    + change (0 <? S (List.length ms))%nat with true. cbv iota.
      unfold bind at 1. rewrite bind_Date_now, bind_update.
      set (c' := with_endTime c (Some (clock w (ticks w)))).
      match goal with
      | |- context [saveConversation c' ?w1] =>
          destruct (saveConversation_run c' w1) as (w2 & Hrun2 & Hh2 & _)
      end.
      rewrite Hrun2.
      destruct (tail w2) as (w' & Hrun & Hc & Hh & Hst).
      exists w'. rewrite Hrun. split; [reflexivity |]. split; [exact Hc |].
      rewrite Hh, Hh2.
      open_world w. reflexivity.
  - rewrite bind_ret.
    destruct (tail w) as (w' & Hrun & Hc & Hh & Hst).
    exists w'. rewrite Hrun. auto.
Qed.

(** C4: [endConversation] returns and leaves no current conversation; when
    there was none, or one without messages, the history and the store are
    what they were; a conversation with at least one message gets the
    reading of the clock as its end time and is put in front of the
    history (cut at 50). *)
Theorem endConversation_archives_nonempty_only :
  forall w : World,
    let w' := exec endConversation w in
    result endConversation w = Normal tt
    /\ currentConversation (self w') = None
    /\ match currentConversation (self w) with
       | Some c =>
           match messages c with
           | [] =>
               conversationHistory (self w') = conversationHistory (self w)
               /\ localStorage w' = localStorage w
           | _ :: _ =>
               conversationHistory (self w')
               = firstn 50
                   (with_endTime c (Some (clock w (ticks w)))
                    :: conversationHistory (self w))
           end
       | None =>
           conversationHistory (self w') = conversationHistory (self w)
           /\ localStorage w' = localStorage w
       end.
Proof.
  intros w w'. subst w'. unfold result, exec.
  destruct (endConversation_run w) as (w' & Hrun & H).
  rewrite Hrun. cbn [fst snd]. split; [reflexivity | exact H].
Qed.

(** Ending the conversation a fresh component has started archives it with
    its greeting; ending again archives nothing. *)
Example end_twice :
  let w1 := exec endConversation (exec startNewConversation w0) in
  let w2 := exec endConversation w1 in
  List.map (fun c => List.length (messages c)) (conversationHistory (self w1))
  = [1%nat]
  /\ List.map endTime (conversationHistory (self w1)) = [Some 1700000000004]
  /\ conversationHistory (self w2) = conversationHistory (self w1).
Proof. vm_compute. repeat split; reflexivity. Qed.

(** ** Starting a conversation *)

Lemma addAIMessage_run (text : jsstring) (c : Conversation) (w : World) :
  currentConversation (self w) = Some c ->
  exists w',
    addAIMessage text w = (Normal tt, w')
    /\ currentConversation (self w')
       = Some (with_messages c
                 (messages c
                  ++ [mkMessage (clock w (ticks w)) ai text
                        (clock w (S (ticks w))) None None None None]))
    /\ isConversationActive (self w') = isConversationActive (self w)
    /\ conversationHistory (self w') = conversationHistory (self w)
    /\ key_conversationHistory (localStorage w')
       = key_conversationHistory (localStorage w).
Proof.
  destruct w as [t st q wr cl tk rn dr co tm].
  destruct t as [md li sp ac cs cur h fh sel sq tp em sm rc sy mr].
  cbn [self currentConversation]. intros ->.
  unfold addAIMessage, saveCurrentConversation, speakResponse, updateStatus,
    tryCatch, bind, gets, update, setItem, Date_now, console_error.
  run; eexists; repeat split; reflexivity.
Qed.

Lemma startNewConversation_run (w : World) :
  exists w' greeting,
    startNewConversation w = (Normal tt, w')
    /\ result generateGreeting w = Normal greeting
    /\ currentConversation (self w')
       = Some (mkConversation (clock w (ticks w)) (clock w (S (ticks w))) None
                 (selectedTopic (self w)) (js "beginner")
                 [mkMessage (clock w (S (S (ticks w)))) ai greeting
                    (clock w (S (S (S (ticks w))))) None None None None]
                 [])
    /\ isConversationActive (self w') = true
    /\ conversationHistory (self w') = conversationHistory (self w)
    /\ key_conversationHistory (localStorage w')
       = key_conversationHistory (localStorage w).
Proof.
  unfold startNewConversation, tryCatch, result.
  rewrite !bind_Date_now, bind_gets, !bind_update.
  rewrite (generateGreeting_run w). cbn [fst].
  set (g := match property greetings (selectedTopic (self w)) with
            | Some g => g
            | None => _
            end).
  match goal with
  | |- context [bind generateGreeting _ ?w1] =>
      assert (Hg : generateGreeting w1 = (Normal g, w1))
        by (rewrite generateGreeting_run; subst g; open_world w; reflexivity)
  end.
  erewrite bind_Normal by exact Hg.
  match goal with
  | |- context [bind (addAIMessage g) _ ?w1] =>
      match w1 with
      | context [set_currentConversation (Some ?c0)] =>
          destruct (addAIMessage_run g c0 w1)
            as (w2 & Hrun & Hcur & Hact & Hh & Hst);
          [open_world w; reflexivity |]
      end
  end.
  erewrite bind_Normal by exact Hrun.
  rewrite bind_gets.
  destruct (showSuccess_run
              (js "New conversation started! Topic: " ++ selectedTopic (self w2)) w2)
    as (w3 & Hrun3 & Hself & Hst3).
  rewrite Hrun3.
  exists w3, g. split; [reflexivity |].
  split; [reflexivity |].
  rewrite Hst3, Hself.
  open_world w. open_world w2.
  cbn -[g] in *. repeat split; assumption.
Qed.

Lemma startNewConversation_forgets (prior : option Conversation) (w : World) :
  startNewConversation (exec (update (set_currentConversation prior)) w)
  = startNewConversation w.
Proof.
  unfold startNewConversation, tryCatch.
  rewrite !bind_Date_now, !bind_gets, !bind_update.
  open_world w. reflexivity.
Qed.

(** C5: the component holds one current conversation at most (the field
    is one optional record), and [startNewConversation] replaces it:
    whatever conversation was current before, the outcome is the same world,
    in which the current conversation is a new record made of clock
    readings, the selected topic and the greeting alone, while the history,
    in memory and in the store, is what it was. *)
Theorem startNewConversation_replaces_active :
  forall (w : World) (prior : option Conversation),
    let w' := exec startNewConversation w in
    startNewConversation (exec (update (set_currentConversation prior)) w)
    = startNewConversation w
    /\ result startNewConversation w = Normal tt
    /\ (exists greeting,
          result generateGreeting w = Normal greeting
          /\ currentConversation (self w')
             = Some (mkConversation (clock w (ticks w))
                       (clock w (S (ticks w))) None
                       (selectedTopic (self w)) (js "beginner")
                       [mkMessage (clock w (S (S (ticks w)))) ai greeting
                          (clock w (S (S (S (ticks w))))) None None None None]
                       []))
    /\ isConversationActive (self w') = true
    /\ conversationHistory (self w') = conversationHistory (self w)
    /\ key_conversationHistory (localStorage w')
       = key_conversationHistory (localStorage w).
Proof.
  intros w prior w'. subst w'. unfold result at 1, exec at 2 3 4 5.
  destruct (startNewConversation_run w)
    as (w' & g & Hrun & Hg & Hcur & Hact & Hh & Hst).
  rewrite Hrun. cbn [fst snd].
  split; [rewrite <- Hrun; apply startNewConversation_forgets |].
  split; [reflexivity |].
  split; [exists g; auto |].
  auto.
Qed.

(** Starting a conversation over a running one: the running one is in
    neither the new record nor the history. *)
Example start_over_running :
  let w1 := exec startNewConversation w0 in
  let w2 := exec startNewConversation w1 in
  conversationHistory (self w2) = []
  /\ option_map c_id (currentConversation (self w1)) = Some 1700000000000
  /\ option_map c_id (currentConversation (self w2)) = Some 1700000000004
  /\ option_map (fun c => List.length (messages c)) (currentConversation (self w2))
     = Some 1%nat.
Proof. vm_compute. repeat split; reflexivity. Qed.

(** ** Loading on startup *)

(** C6: on startup, when no conversation is current yet, [loadHistory]
    returns normally whatever the store holds.  When the snapshot of the
    history is missing or corrupt the history is empty, and when the
    snapshot of the active conversation is missing or corrupt there is no
    active conversation.  A corrupt snapshot of either kind gives both: an
    empty history and no active conversation. *)
Theorem loadHistory_defaults :
  forall w : World,
    currentConversation (self w) = None ->
    isConversationActive (self w) = false ->
    let saved := key_conversationHistory (localStorage w) in
    let current := key_currentConversation (localStorage w) in
    let w' := exec loadHistory w in
    result loadHistory w = Normal tt
    /\ (missing saved = true \/ corrupt saved = true ->
        conversationHistory (self w') = [])
    /\ (missing current = true \/ corrupt current = true ->
        currentConversation (self w') = None
        /\ isConversationActive (self w') = false)
    /\ (corrupt saved = true \/ corrupt current = true ->
        conversationHistory (self w') = []
        /\ currentConversation (self w') = None
        /\ isConversationActive (self w') = false).
Proof.
  intros w Hcur Hact.
  destruct w as [t [saved current] q wr cl tk rn dr co tm].
  destruct t as [md li sp ac cs cur h0 fh sel sq tp em sm rc sy mr].
  cbn in Hcur, Hact. subst cur ac.
  cbn [localStorage key_conversationHistory key_currentConversation].
  destruct saved as [[| | h] |]; destruct current as [[| | c] |];
    cbn -[js];
    (split; [reflexivity |]);
    intuition (discriminate || congruence).
Qed.

Lemma loadHistory_defaults_witness :
  currentConversation (self (newWorld garbledStorage)) = None
  /\ isConversationActive (self (newWorld garbledStorage)) = false
  /\ result loadHistory (newWorld garbledStorage) = Normal tt
  /\ conversationHistory (self (exec loadHistory (newWorld garbledStorage)))
     = []
  /\ currentConversation (self (exec loadHistory (newWorld garbledStorage)))
     = None.
Proof.
  split; [reflexivity |]. split; [reflexivity |].
  pose proof (loadHistory_defaults (newWorld garbledStorage)
                eq_refl eq_refl) as H.
  cbv zeta in H. destruct H as (Hrun & Hsaved & Hcurrent & _).
  split; [exact Hrun |].
  split.
  - apply Hsaved. right. reflexivity.
  - apply Hcurrent. left. reflexivity.
Defined.

(** A snapshot that parses is restored when the other one is missing:
    the store an ended conversation leaves behind gives its history
    back. *)
Lemma loadHistory_restores :
  forall w : World,
    currentConversation (self w) = None ->
    isConversationActive (self w) = false ->
    let saved := key_conversationHistory (localStorage w) in
    let current := key_currentConversation (localStorage w) in
    let w' := exec loadHistory w in
    (forall h,
       saved = Some (Json h) -> missing current = true ->
       conversationHistory (self w') = h)
    /\ (forall c,
          missing saved = true -> current = Some (Json c) ->
          currentConversation (self w') = Some c
          /\ isConversationActive (self w') = true).
Proof.
  intros w Hcur Hact.
  destruct w as [t [saved current] q wr cl tk rn dr co tm].
  destruct t as [md li sp ac cs cur h0 fh sel sq tp em sm rc sy mr].
  cbn in Hcur, Hact. subst cur ac.
  cbn [localStorage key_conversationHistory key_currentConversation].
  destruct saved as [[| | h] |]; destruct current as [[| | c] |];
    cbn -[js];
    intuition (discriminate || congruence).
Qed.

Example loadHistory_restores_history_without_snapshot :
  missing (key_currentConversation (localStorage (newWorld archivedStorage)))
  = true
  /\ conversationHistory (self (exec loadHistory (newWorld archivedStorage)))
     <> [].
Proof. split; [reflexivity |]. vm_compute. discriminate. Qed.

(** A corrupt snapshot of the active conversation also costs the stored
    history. *)
Example loadHistory_corrupt_snapshot :
  let w := newWorld (mkStorage (Some (JSON_stringify_all [numbered 1]))
                       (Some Garbled)) in
  conversationHistory (self (exec loadHistory w)) = []
  /\ currentConversation (self (exec loadHistory w)) = None
  /\ List.length (console (exec loadHistory w)) = 1%nat.
Proof. vm_compute. repeat split; reflexivity. Qed.

(* ===================================================================== *)
(** * A logic of methods *)
(* ===================================================================== *)

Lemma wp_ret {A} (a : A) Q R w : Q a w -> wp (ret a) Q R w.
Proof. exact (fun H => H). Qed.

Lemma wp_throw {A} (e : jsstring) (Q : A -> World -> Prop) R w :
  R e w -> wp (throw e) Q R w.
Proof. exact (fun H => H). Qed.

Lemma wp_bind {A B} (m : M A) (k : A -> M B) Q R w :
  wp m (fun a w' => wp (k a) Q R w') R w -> wp (bind m k) Q R w.
Proof.
  unfold wp, bind. destruct (m w) as [[a | e] w']; exact (fun H => H).
Qed.

Lemma wp_tryCatch {A} (m : M A) (h : jsstring -> M A) Q R w :
  wp m Q (fun e w' => wp (h e) Q R w') w -> wp (tryCatch m h) Q R w.
Proof.
  unfold wp, tryCatch. destruct (m w) as [[a | e] w']; exact (fun H => H).
Qed.

Lemma wp_gets {A} (f : Tutor -> A) Q R w :
  Q (f (self w)) w -> wp (gets f) Q R w.
Proof. exact (fun H => H). Qed.

Lemma wp_update (f : Tutor -> Tutor) Q R w :
  Q tt (exec (update f) w) -> wp (update f) Q R w.
Proof. exact (fun H => H). Qed.

Lemma wp_Date_now Q R w :
  Q (clock w (ticks w)) (put_ticks (S (ticks w)) w) -> wp Date_now Q R w.
Proof. exact (fun H => H). Qed.

Lemma wp_Math_random Q R w :
  Q (random w (draws w) mod 2 ^ 53) (put_draws (S (draws w)) w) ->
  wp Math_random Q R w.
Proof. exact (fun H => H). Qed.

Lemma wp_console_error (label err : jsstring) Q R w :
  Q tt (put_console (console w ++ [(label, err)]) w) ->
  wp (console_error label err) Q R w.
Proof. exact (fun H => H). Qed.

Lemma wp_setTimeout (cb : Callback) (ms : N) Q R w :
  Q tt (put_timers (timers w ++ [(ms, cb)]) w) ->
  wp (setTimeout cb ms) Q R w.
Proof. exact (fun H => H). Qed.

Lemma wp_getItem {A} (k : Key A) Q R w :
  Q (lookup k (localStorage w)) w -> wp (getItem k) Q R w.
Proof. exact (fun H => H). Qed.

Lemma wp_setItem {A} (k : Key A) (v : item A) Q R w :
  R (js "QuotaExceededError") (put_writes (S (writes w)) w) ->
  Q tt (put_localStorage (store k (Some v) (localStorage w))
          (put_writes (S (writes w)) w)) ->
  wp (setItem k v) Q R w.
Proof.
  intros Hr Hq. unfold wp, setItem.
  destruct (quotaExceeded w (writes w)); assumption.
Qed.

Lemma wp_removeItem {A} (k : Key A) Q R w :
  Q tt (put_localStorage (store k None (localStorage w)) w) ->
  wp (removeItem k) Q R w.
Proof. exact (fun H => H). Qed.

Lemma wp_mono {A} (m : M A) (Q Q' : A -> World -> Prop) (R R' : jsstring -> World -> Prop) w :
  wp m Q R w ->
  (forall a w', Q a w' -> Q' a w') ->
  (forall e w', R e w' -> R' e w') ->
  wp m Q' R' w.
Proof.
  unfold wp. destruct (m w) as [[a | e] w']; auto.
Qed.

(** A method that establishes [Q] returns, and [Q] holds of the world it
    leaves. *)
Lemma wp_exec {A} (m : M A) (Q : World -> Prop) w :
  wp m (fun _ => Q) (fun _ _ => False) w ->
  (exists a, result m w = Normal a) /\ Q (exec m w).
Proof.
  unfold wp, result, exec. destruct (m w) as [[a | e] w']; cbn.
  - intro H. split; [exists a; reflexivity | exact H].
  - intros [].
Qed.

(** One step of a method. *)
Ltac wp_rule :=
  lazymatch goal with
  | |- wp (bind _ _) _ _ _ => apply wp_bind
  | |- wp (tryCatch _ _) _ _ _ => apply wp_tryCatch
  | |- wp (ret _) _ _ _ => apply wp_ret
  | |- wp (throw _) _ _ _ => apply wp_throw
  | |- wp (gets _) _ _ _ => apply wp_gets
  | |- wp (update _) _ _ _ => apply wp_update
  | |- wp Date_now _ _ _ => apply wp_Date_now
  | |- wp Math_random _ _ _ => apply wp_Math_random
  | |- wp (console_error _ _) _ _ _ => apply wp_console_error
  | |- wp (setTimeout _ _) _ _ _ => apply wp_setTimeout
  | |- wp (getItem _) _ _ _ => apply wp_getItem
  | |- wp (setItem _ _) _ _ _ => apply wp_setItem
  | |- wp (removeItem _) _ _ _ => apply wp_removeItem
  | |- wp (showError _) _ _ _ => unfold showError
  | |- wp (showSuccess _) _ _ _ => unfold showSuccess
  | |- wp (match ?x with _ => _ end) _ _ _ => destruct x eqn:?
  | |- wp (let _ := _ in _) _ _ _ => cbv zeta
  end; cbv beta.

Ltac wp_steps := repeat wp_rule.

(* ===================================================================== *)
(** * What the component keeps between events *)
(* ===================================================================== *)

(** The invariant looks at the world through these fields only. *)
Lemma Invariant_same (w w' : World) :
  Invariant w ->
  (conversationHistory (self w'), isListening (self w'), isSpeaking (self w'),
   conversationStatus (self w'), isConversationActive (self w'),
   currentConversation (self w'), localStorage w')
  = (conversationHistory (self w), isListening (self w), isSpeaking (self w),
     conversationStatus (self w), isConversationActive (self w),
     currentConversation (self w), localStorage w) ->
  Invariant w'.
Proof.
  intros [H1 H2 H3 H4 H5 H6 H7] E.
  injection E as Eh El Es Est Ea Ec Esto.
  constructor; rewrite ?Eh, ?El, ?Es, ?Est, ?Ea, ?Ec, ?Esto; assumption.
Qed.

Ltac same := eapply Invariant_same; [eassumption | reflexivity].

Lemma statusOf_cases (l s : bool) :
  (if l then js "listening" else if s then js "speaking" else js "idle")
  = statusOf l s.
Proof. reflexivity. Qed.

(** [updateStatus] makes the status agree with the two flags, whatever it
    was. *)
Lemma updateStatus_spec (P : World -> Prop) w :
  (forall st,
     st = statusOf (isListening (self w)) (isSpeaking (self w)) ->
     P (exec (update (set_conversationStatus st)) w)) ->
  wp updateStatus (fun _ => P) (fun _ _ => False) w.
Proof.
  intro H. unfold updateStatus. wp_steps; apply H; reflexivity.
Qed.

Lemma Invariant_status w :
  Invariant w ->
  forall l s,
    Invariant
      (exec (update (set_conversationStatus (statusOf l s)))
         (exec (update (fun t => set_isSpeaking s (set_isListening l t))) w)).
Proof.
  intros [H1 H2 H3 H4 H5 H6 H7] l s.
  constructor; cbn -[statusOf]; auto.
Qed.

(** Calling a method that keeps the invariant. *)
Lemma wp_keeps {A} (m : M A) (Q : A -> World -> Prop) R w :
  keeps m -> Invariant w -> (forall a w', Invariant w' -> Q a w') ->
  wp m Q R w.
Proof.
  intros Hm Hw HQ. eapply wp_mono; [apply (Hm w Hw) | exact HQ |].
  intros e w' [].
Qed.

Ltac unpack H :=
  let H1 := fresh "Hbound" in
  let H2 := fresh "Hstatus" in
  let H3 := fresh "Hactive" in
  let H4 := fresh "Hscores" in
  let H5 := fresh "Hcurrent" in
  let H6 := fresh "Hstored" in
  let H7 := fresh "Hsnapshot" in
  destruct H as [H1 H2 H3 H4 H5 H6 H7].

Ltac tidy :=
  cbn -[statusOf js firstn Nat.ltb property List.app toLowerCase includes
        List.length List.map scoresInRange] in *.

(** [stopListening] keeps the invariant and leaves the conversation, the
    history and the store alone. *)
Lemma stopListening_spec w :
  Invariant w ->
  wp stopListening
    (fun _ w' =>
       Invariant w'
       /\ isListening (self w') = false
       /\ isConversationActive (self w') = isConversationActive (self w)
       /\ currentConversation (self w') = currentConversation (self w)
       /\ conversationHistory (self w') = conversationHistory (self w)
       /\ localStorage w' = localStorage w)
    (fun _ _ => False) w.
Proof.
  intros H. unfold stopListening.
  wp_steps.
  all: eapply wp_mono;
    [apply updateStatus_spec | intros a w' Hw'; exact Hw' | intros e w' []].
  all: intros st Hst; (split; [| repeat split]);
    unpack H; constructor; tidy; subst; auto.
Qed.

Lemma stopListening_keeps : keeps stopListening.
Proof.
  intros w H. eapply wp_mono; [apply (stopListening_spec w H) | | auto].
  cbv beta. intros _ w' Hw'. apply Hw'.
Qed.

Ltac call L := eapply wp_keeps; [exact L | | intros ? ? ?].

Ltac leaf H :=
  first [ same
        | unpack H; constructor; tidy; subst;
          repeat match goal with
                 | E : ?x = _, H' : context [match ?x with _ => _ end] |- _ =>
                     rewrite E in H'
                 | E : ?x = _ |- context [match ?x with _ => _ end] =>
                     rewrite E
                 end;
          auto; try discriminate; try congruence;
          try (cbn [List.length]; lia) ].

Lemma scoresInRange_serializable (c : Conversation) :
  scoresInRange c -> scoresInRange (serializable c).
Proof. exact (fun H => H). Qed.

Lemma scoresInRange_with_endTime (c : Conversation) (t : option N) :
  scoresInRange c -> scoresInRange (with_endTime c t).
Proof. exact (fun H => H). Qed.

Lemma scoresInRange_push (c : Conversation) (m : Message) :
  scoresInRange c -> scoreInRange m ->
  scoresInRange (with_messages c (messages c ++ [m])).
Proof.
  intros Hc Hm. unfold scoresInRange in *. cbn [messages with_messages].
  apply Forall_app. split; [exact Hc | constructor; [exact Hm | constructor]].
Qed.

Lemma updateStatus_keeps_after (f : Tutor -> Tutor) Q R w :
  Invariant w ->
  (conversationHistory (f (self w)), isConversationActive (f (self w)),
   currentConversation (f (self w)))
  = (conversationHistory (self w), isConversationActive (self w),
     currentConversation (self w)) ->
  (forall w', Invariant w' -> Q tt w') ->
  wp updateStatus Q R (exec (update f) w).
Proof.
  intros H E HQ. injection E as Eh Ea Ec.
  eapply wp_mono;
    [apply (updateStatus_spec (Q tt)) | intros [] w' Hw'; exact Hw'
    | intros e w' []].
  intros st Hst. apply HQ.
  unpack H. constructor; tidy; rewrite ?Eh, ?Ea, ?Ec; subst; auto.
Qed.

Lemma recognition_onstart_keeps : keeps recognition_onstart.
Proof.
  intros w H. unfold recognition_onstart. wp_steps.
  apply updateStatus_keeps_after; [exact H | reflexivity | auto].
Qed.

Lemma recognition_onend_keeps : keeps recognition_onend.
Proof.
  intros w H. unfold recognition_onend. wp_steps.
  apply updateStatus_keeps_after; [exact H | reflexivity | auto].
Qed.

Lemma utterance_onstart_keeps : keeps utterance_onstart.
Proof.
  intros w H. unfold utterance_onstart. wp_steps.
  apply updateStatus_keeps_after; [exact H | reflexivity | auto].
Qed.

Lemma utterance_onerror_keeps (error : jsstring) : keeps (utterance_onerror error).
Proof.
  intros w H. unfold utterance_onerror. wp_steps.
  assert (H' : Invariant (put_console (console w ++ [(js "synthesis error", error)]) w))
    by same.
  apply updateStatus_keeps_after; [exact H' | reflexivity | auto].
Qed.

Lemma recognition_onerror_keeps (error : option jsstring) :
  keeps (recognition_onerror error).
Proof.
  intros w H. unfold recognition_onerror. wp_steps.
  call stopListening_keeps; [same | assumption].
Qed.

Lemma pauseConversation_keeps : keeps pauseConversation.
Proof.
  intros w H. unfold pauseConversation. wp_steps.
  call stopListening_keeps.
  - leaf H.
  - wp_steps. same.
Qed.

Lemma fire_keeps (cb : Callback) : keeps (fire cb).
Proof. intros w H. unfold fire. wp_steps; same. Qed.

Lemma selectHistoryConversation_keeps c : keeps (selectHistoryConversation c).
Proof. intros w H. unfold selectHistoryConversation. wp_steps; same. Qed.

Lemma switchMode_keeps mode : keeps (switchMode mode).
Proof. intros w H. unfold switchMode. wp_steps; same. Qed.

Lemma ngOnDestroy_keeps : keeps ngOnDestroy.
Proof. intros w H. unfold ngOnDestroy. wp_steps; same. Qed.

Lemma initSpeechRecognition_keeps available :
  keeps (initSpeechRecognition available).
Proof. intros w H. unfold initSpeechRecognition. wp_steps; same. Qed.

Lemma clearHistory_keeps confirmed : keeps (clearHistory confirmed).
Proof.
  intros w H. unfold clearHistory. wp_steps; leaf H.
Qed.

Lemma saveCurrentConversation_keeps : keeps saveCurrentConversation.
Proof.
  intros w H. unfold saveCurrentConversation. wp_steps; leaf H.
Qed.

Lemma speakResponse_keeps text : keeps (speakResponse text).
Proof. intros w H. unfold speakResponse. wp_steps; same. Qed.

Lemma addAIMessage_keeps text : keeps (addAIMessage text).
Proof.
  intros w H. unfold addAIMessage. wp_steps.
  - call saveCurrentConversation_keeps.
    + unpack H. constructor; tidy; auto; try congruence.
      rewrite Heqo in Hcurrent.
      apply scoresInRange_push; [exact Hcurrent | exact I].
    + call (speakResponse_keeps text); assumption.
  - same.
Qed.

Lemma Forall_firstn {A} (P : A -> Prop) (n : nat) (l : list A) :
  Forall P l -> Forall P (firstn n l).
Proof.
  intro H. revert n. induction H as [| x l Hx Hl IH]; intros [| n];
    cbn [firstn]; constructor; auto.
Qed.

Lemma Forall_scoresInRange_serializable (h : list Conversation) :
  Forall scoresInRange h -> Forall scoresInRange (List.map serializable h).
Proof.
  intro H. rewrite Forall_map. exact H.
Qed.

Ltac bound :=
  rewrite ?length_map, ?length_firstn;
  repeat match goal with
         | E : (_ <? _)%nat = false |- _ => apply Nat.ltb_ge in E
         | E : (_ <? _)%nat = true |- _ => apply Nat.ltb_lt in E
         end;
  cbn [List.length] in *; lia.

Ltac ranges :=
  try apply Forall_scoresInRange_serializable;
  try apply Forall_firstn;
  try (constructor; [| assumption]);
  auto.

Lemma saveConversation_keeps (c : Conversation) :
  scoresInRange c -> keeps (saveConversation c).
Proof.
  intros Hc w H. unfold saveConversation.
  wp_steps.
  all: unpack H; constructor; tidy; subst; auto; try discriminate.
  all: try bound.
  all: try (split; [bound |]).
  all: ranges.
Qed.

Ltac call_stop :=
  eapply wp_mono;
  [apply stopListening_spec | cbv beta; intros _ ? (? & ? & ? & ? & ? & ?)
  | intros ? ? []].

Lemma endConversation_keeps : keeps endConversation.
Proof.
  intros w H. unfold endConversation. wp_steps.
  - eapply wp_keeps; [apply saveConversation_keeps | | intros ? ? ?].
    + unpack H. rewrite Heqo in Hcurrent. exact Hcurrent.
    + unpack H. rewrite Heqo in Hcurrent.
      constructor; tidy; auto; congruence.
    + wp_steps. call_stop; [leaf H0 |].
      wp_steps. tidy. leaf H1.
  - call_stop; [leaf H |]. wp_steps. tidy. leaf H0.
  - call_stop; [leaf H |]. wp_steps. tidy. leaf H0.
Qed.

Lemma generateGreeting_keeps : keeps generateGreeting.
Proof. intros w H. unfold generateGreeting. wp_steps; exact H. Qed.

Lemma startNewConversation_keeps : keeps startNewConversation.
Proof.
  intros w H. unfold startNewConversation. wp_steps.
  call generateGreeting_keeps.
  - unpack H. constructor; tidy; auto; try congruence. constructor.
  - wp_rule. call (addAIMessage_keeps a); [assumption |].
    wp_steps. same.
Qed.

Lemma loadHistory_keeps : keeps loadHistory.
Proof.
  intros w H. unfold loadHistory, JSON_parse. wp_steps.
  all: unpack H; constructor; tidy; subst; auto; try discriminate;
    try congruence.
  all: repeat match goal with
         | E : ?x = _, H' : context [?x] |- _ => rewrite E in H'
         end; tidy; try tauto; try bound.
Qed.

(** The assessment methods, as assertions. *)
Lemma wp_generateCorrection (text : jsstring) Q R w :
  (forall r, Q r w) -> wp (generateCorrection text) Q R w.
Proof.
  intro H. unfold wp.
  destruct (generateCorrection_pure text) as [r Hr]. rewrite Hr. apply H.
Qed.

Lemma assessPronunciation_score (text : jsstring) :
  exists z, (0 <= z <= 100)%Z
            /\ forall w, assessPronunciation text w = (Normal z, w).
Proof.
  unfold assessPronunciation, tryCatch, ret.
  eexists. split; [apply clamp_range |]. intro w. reflexivity.
Qed.

Lemma wp_assessPronunciation (text : jsstring) Q R w :
  (forall z, (0 <= z <= 100)%Z -> Q z w) ->
  wp (assessPronunciation text) Q R w.
Proof.
  intro H. unfold wp.
  destruct (assessPronunciation_score text) as (z & Hz & Hrun).
  rewrite Hrun. apply H, Hz.
Qed.

Lemma wp_generatePronunciationFeedback (text : jsstring) Q R w :
  (forall f, Q f w) -> wp (generatePronunciationFeedback text) Q R w.
Proof.
  intro H. unfold generatePronunciationFeedback.
  apply wp_bind, wp_assessPronunciation. intros z _.
  wp_steps; apply H.
Qed.

Lemma generateAIResponse_keeps text : keeps (generateAIResponse text).
Proof.
  intros w H. unfold generateAIResponse. wp_steps; same.
Qed.

Lemma replyTo_keeps text : keeps (replyTo text).
Proof.
  intros w H. unfold replyTo. wp_rule.
  call (generateAIResponse_keeps text); [exact H |].
  call (addAIMessage_keeps a); [assumption | assumption].
Qed.

Lemma processUserSpeech_keeps text : keeps (processUserSpeech text).
Proof.
  intros w H. unfold processUserSpeech.
  wp_rule. do 2 wp_rule. do 2 wp_rule.
  wp_rule. apply wp_generateCorrection. intro c.
  wp_rule. apply wp_assessPronunciation. intros z Hz.
  wp_rule. apply wp_generatePronunciationFeedback. intro f.
  wp_steps.
  - call saveCurrentConversation_keeps.
    + unpack H. constructor; tidy; auto; try congruence.
      rewrite Heqo in Hcurrent.
      apply scoresInRange_push; [exact Hcurrent | exact Hz].
    + wp_rule. call stopListening_keeps; [assumption |].
      wp_steps. assumption.
  - same.
Qed.

Lemma recognition_onresult_keeps i rs : keeps (recognition_onresult i rs).
Proof.
  intros w H. unfold recognition_onresult. wp_steps.
  - exact H.
  - apply processUserSpeech_keeps, H.
Qed.

Lemma startListening_begin_keeps : keeps startListening_begin.
Proof.
  intros w H. unfold startListening_begin. wp_steps.
  - exact H.
  - call startNewConversation_keeps; [exact H |]. wp_steps. assumption.
  - same.
Qed.

Lemma resumeListening_keeps : keeps resumeListening.
Proof.
  intros w H. unfold resumeListening. wp_steps.
  - apply startListening_begin_keeps, H.
  - exact H.
Qed.

Lemma startListening_resume_keeps granted recorder :
  keeps (startListening_resume granted recorder).
Proof.
  intros w H. unfold startListening_resume. wp_steps; same.
Qed.

Lemma utterance_onend_keeps : keeps utterance_onend.
Proof.
  intros w H. unfold utterance_onend. wp_steps.
  apply updateStatus_keeps_after; [exact H | reflexivity |].
  intros w' Hw'. wp_steps. exact Hw'.
Qed.

Lemma scoresInRange_attach (c : Conversation) (last : Message)
  (before : list Message) (u : option jsstring) (rs : list AudioRecording) :
  rev (messages c) = last :: before ->
  scoresInRange c ->
  scoresInRange
    (with_audioRecordings
       (with_messages c (rev before ++ [with_audioUrl last u])) rs).
Proof.
  intros E Hc. unfold scoresInRange in *.
  cbn [messages with_messages with_audioRecordings].
  assert (Em : messages c = rev before ++ [last]).
  { rewrite <- (rev_involutive (messages c)), E. reflexivity. }
  rewrite Em in Hc. apply Forall_app in Hc as [Hb Hl].
  apply Forall_app. split; [exact Hb |].
  inversion Hl; subst. constructor; [assumption | constructor].
Qed.

Lemma mediaRecorder_onstop_keeps u b : keeps (mediaRecorder_onstop u b).
Proof.
  intros w H. unfold mediaRecorder_onstop. wp_steps.
  - exact H.
  - call saveCurrentConversation_keeps; [| assumption].
    unpack H. rewrite Heqo in Hcurrent.
    constructor; tidy; auto; try congruence.
    apply scoresInRange_attach; assumption.
  - leaf H.
  - exact H.
Qed.

Lemma ngOnInit_keeps available : keeps (ngOnInit available).
Proof.
  intros w H. unfold ngOnInit. wp_rule.
  call loadHistory_keeps; [exact H |].
  wp_rule. call (initSpeechRecognition_keeps available); [assumption |].
  apply startNewConversation_keeps. assumption.
Qed.

(** ** The history view *)

Lemma getConversationPreview_run (c : Conversation) (w : World) :
  getConversationPreview (Some c) w = (Normal (previewText c), w).
Proof.
  unfold getConversationPreview, previewText, tryCatch.
  destruct (filter isUser (messages c)) as [| m ms]; [reflexivity |].
  destruct (50 <? List.length (text m))%nat; reflexivity.
Qed.

Lemma filterM_pure {A} (p : A -> M bool) (f : A -> bool) :
  (forall x w, p x w = (Normal (f x), w)) ->
  forall l w, filterM p l w = (Normal (filter f l), w).
Proof.
  intros Hp l. induction l as [| x l IH]; intro w; [reflexivity |].
  cbn [filterM filter]. unfold bind. rewrite Hp, IH. reflexivity.
Qed.

Lemma filterHistory_run (w : World) :
  filterHistory w
  = (Normal tt,
     exec (update
             (set_filteredHistory
                match searchQuery (self w) with
                | [] => conversationHistory (self w)
                | _ :: _ =>
                    filter (matchesQuery (toLowerCase (searchQuery (self w))))
                      (conversationHistory (self w))
                end)) w).
Proof.
  unfold filterHistory, tryCatch.
  rewrite bind_gets.
  destruct (searchQuery (self w)) as [| x q] eqn:Hq; [reflexivity |].
  rewrite bind_gets.
  unfold bind at 1.
  rewrite (filterM_pure _ (matchesQuery (toLowerCase (x :: q)))).
  - reflexivity.
  - intros c w'. unfold bind. rewrite getConversationPreview_run. reflexivity.
Qed.

Lemma filterHistory_keeps : keeps filterHistory.
Proof.
  intros w H. unfold wp. rewrite filterHistory_run. same.
Qed.

(** ** Every event *)

Lemma handle_keeps (e : Event) : keeps (handle e).
Proof.
  destruct e; cbn [handle].
  - apply ngOnInit_keeps.
  - apply ngOnDestroy_keeps.
  - apply startNewConversation_keeps.
  - apply endConversation_keeps.
  - apply pauseConversation_keeps.
  - intros w H. wp_rule. call startListening_begin_keeps; [exact H |].
    wp_steps. assumption.
  - apply startListening_resume_keeps.
  - apply stopListening_keeps.
  - apply recognition_onstart_keeps.
  - intros w H. wp_rule. call (recognition_onresult_keeps resultIndex results);
      [exact H |]. wp_steps. assumption.
  - apply recognition_onerror_keeps.
  - apply recognition_onend_keeps.
  - apply utterance_onstart_keeps.
  - intros w H. wp_rule. call utterance_onend_keeps; [exact H |].
    wp_steps. assumption.
  - apply utterance_onerror_keeps.
  - apply mediaRecorder_onstop_keeps.
  - apply replyTo_keeps.
  - intros w H. wp_rule. call resumeListening_keeps; [exact H |].
    wp_steps. assumption.
  - apply fire_keeps.
  - apply filterHistory_keeps.
  - apply clearHistory_keeps.
  - apply switchMode_keeps.
  - apply selectHistoryConversation_keeps.
Qed.

Lemma startup_Invariant (w : World) : startup w -> Invariant w.
Proof.
  intros (Hself & Hst & Hsn).
  remember (synthesis (self w)) as sy eqn:Hsy. clear Hsy.
  constructor; try assumption; rewrite Hself; cbn; auto; try lia;
    try discriminate.
Qed.

Lemma after_keeps (es : list Event) :
  forall w, Invariant w ->
    Invariant (after es w)
    /\ forall e, exists w', handle e (after es w) = (Normal tt, w').
Proof.
  induction es as [| e es IH]; intros w H.
  - cbn [after]. split; [exact H |]. intro e.
    pose proof (handle_keeps e w H) as He. unfold wp in He.
    destruct (handle e w) as [[[] | err] w']; [eauto | destruct He].
  - cbn [after]. apply IH.
    pose proof (handle_keeps e w H) as He. unfold wp, exec in *.
    destruct (handle e w) as [[[] | err] w']; [exact He | destruct He].
Qed.

(* ===================================================================== *)
(** * More about the assessment engine *)
(* ===================================================================== *)

(** The five sentences of [generatePronunciationFeedback], by band. *)
Lemma feedback_band (text : jsstring) (z : Z) (w : World) :
  assessPronunciation text w = (Normal z, w) ->
  generatePronunciationFeedback text w
  = (Normal
       (if (90 <=? z)%Z
        then js "Excellent pronunciation! Your speech is very clear and natural."
        else if (80 <=? z)%Z
        then js "Great job! Your pronunciation is good with minor improvements possible."
        else if (70 <=? z)%Z
        then js "Good effort! Focus on clarity and word stress."
        else if (60 <=? z)%Z
        then js "Keep practicing! Try to speak more slowly and clearly."
        else js "Don't worry! Practice basic sounds and short phrases first."),
     w).
Proof.
  intro H. unfold generatePronunciationFeedback, bind. rewrite H.
  destruct (90 <=? z)%Z; [reflexivity |].
  destruct (80 <=? z)%Z; [reflexivity |].
  destruct (70 <=? z)%Z; [reflexivity |].
  destruct (60 <=? z)%Z; reflexivity.
Qed.


(* ===================================================================== *)
(** * More about the response generator *)
(* ===================================================================== *)

Lemma startsWith_nil (s : jsstring) : startsWith s [] = true.
Proof. destruct s; reflexivity. Qed.

Lemma splitAt_space (s cur : jsstring) :
  List.length (splitAt [32] s 0 cur)
  = S (spaces s).
Proof.
  unfold spaces.
  revert cur. induction s as [| c s IH]; intro cur; [reflexivity |].
  cbn [splitAt startsWith List.length Nat.sub count_occ].
  destruct (N.eqb_spec 32 c) as [<- | Hc].
  - cbn [andb]. rewrite startsWith_nil. cbn [List.length]. rewrite IH.
    destruct (N.eq_dec 32 32); [reflexivity | congruence].
  - cbn [andb]. rewrite IH.
    destruct (N.eq_dec c 32); [congruence | reflexivity].
Qed.

Lemma split_space (s : jsstring) :
  List.length (split s (js " ")) = S (spaces s).
Proof. apply splitAt_space. Qed.

Lemma responses_entry (t : jsstring) (l : list jsstring) :
  property responses t = Some l -> (3 <= List.length l <= 4)%nat.
Proof.
  unfold responses. cbn [property]. intro H.
  repeat match type of H with
         | (if ?b then _ else _) = _ => destruct b
         end;
    try discriminate; injection H as <-; vm_compute; lia.
Qed.

Lemma responses_pool (t : jsstring) :
  exists pool,
    match property responses t with
    | Some l => l
    | None =>
        match property responses (js "random") with
        | Some l => l
        | None => []
        end
    end = pool
    /\ (3 <= List.length pool)%nat
    /\ N.of_nat (List.length pool) <= 2 ^ 53.
Proof.
  eexists. split; [reflexivity |].
  destruct (property responses t) as [l |] eqn:Ht.
  - pose proof (responses_entry _ _ Ht). split; [lia |].
    change (2 ^ 53) with 9007199254740992. lia.
  - vm_compute. split; [lia | discriminate].
Qed.

(** X2: for every topic that is not the name of a member the table
    inherits (an unknown one falls back on the pool of 'random'), whatever
    the text and the random draw, [generateAIResponse] returns normally,
    takes exactly one draw, and its reply is one of the three openings
    followed by an entry of the topic's pool: the index, rounded as the
    product is, is always within the pool. *)
Theorem generateAIResponse_from_pool :
  forall (userText : jsstring) (w : World),
    inherited (selectedTopic (self w)) = false ->
    exists pool prefix reply,
      pool = match property responses (selectedTopic (self w)) with
             | Some l => l
             | None =>
                 match property responses (js "random") with
                 | Some l => l
                 | None => []
                 end
             end
      /\ In reply pool
      /\ In prefix [js "That's a good question! ";
                    js "I see. Could you tell me more? "; []]
      /\ generateAIResponse userText w
         = (Normal (prefix ++ reply), put_draws (S (draws w)) w).
Proof.
  intros userText w _.
  destruct (responses_pool (selectedTopic (self w))) as (pool & Hpool & Hlen & Hmax).
  set (r := random w (draws w) mod 2 ^ 53).
  exists pool.
  assert (Hin : In (nth (randomIndex r (List.length pool)) pool (js "undefined")) pool).
  { apply nth_In, randomIndex_lt; [| lia | lia].
    subst r. apply N.mod_lt. discriminate. }
  unfold generateAIResponse, tryCatch, bind, gets, Math_random.
  rewrite Hpool. fold r.
  destruct (includes userText (js "?"));
    [exists (js "That's a good question! ")
    | destruct (List.length (split userText (js " ")) <? 5)%nat;
      [exists (js "I see. Could you tell me more? ") | exists []]];
    exists (nth (randomIndex r (List.length pool)) pool (js "undefined"));
    (split; [reflexivity |]);
    (split; [exact Hin |]);
    (split; [cbn [In]; auto | reflexivity]).
Qed.

Lemma generateAIResponse_from_pool_witness :
  inherited (selectedTopic (self sportsWorld)) = false
  /\ exists prefix reply,
       In reply [ js "Tell me more!";
                  js "That's interesting " ++ [8212]
                  ++ js " why do you think that happened?";
                  js "Could you expand on that?" ]
       /\ result (generateAIResponse (js "I play tennis on Sundays with Ann"))
            sportsWorld
          = Normal (prefix ++ reply).
Proof.
  split; [reflexivity |].
  pose proof (generateAIResponse_from_pool
                (js "I play tennis on Sundays with Ann") sportsWorld eq_refl)
    as H.
  destruct H as (pool & prefix & reply & Hpool & Hin & _ & Hrun).
  exists prefix, reply. split.
  - rewrite Hpool in Hin. exact Hin.
  - unfold result. rewrite Hrun. reflexivity.
Defined.

(** X3: the opening goes by the number of space characters, not of words.
    For a topic that is not the name of an inherited member, the response
    picked is the same whatever the text, and the text decides the opening
    alone: a question mark gives the compliment, and without one the
    request to elaborate is there exactly when the text has fewer than four
    spaces, so that the empty text gets it and a single word followed by
    four spaces gets the bare response. *)
Theorem generateAIResponse_counts_spaces :
  forall w : World,
    inherited (selectedTopic (self w)) = false ->
    exists response,
      forall userText : jsstring,
        generateAIResponse userText w
        = (Normal
             ((if includes userText (js "?")
               then js "That's a good question! "
               else if (spaces userText <? 4)%nat
                    then js "I see. Could you tell me more? "
                    else [])
              ++ response),
           put_draws (S (draws w)) w).
Proof.
  intros w _.
  destruct (responses_pool (selectedTopic (self w))) as (pool & Hpool & _).
  exists (nth (randomIndex (random w (draws w) mod 2 ^ 53) (List.length pool))
            pool (js "undefined")).
  intro userText.
  unfold generateAIResponse, tryCatch, bind, gets, Math_random.
  rewrite Hpool, split_space.
  change (S (spaces userText) <? 5)%nat
    with (spaces userText <? 4)%nat.
  destruct (includes userText (js "?")); [reflexivity |].
  destruct (spaces userText <? 4)%nat; reflexivity.
Qed.

Lemma generateAIResponse_counts_spaces_witness :
  inherited (selectedTopic (self sportsWorld)) = false
  /\ exists response,
       result (generateAIResponse (js "word    ")) sportsWorld
       = Normal response
       /\ result (generateAIResponse []) sportsWorld
          = Normal (js "I see. Could you tell me more? " ++ response)
       /\ result (generateAIResponse (js "a b c d e?")) sportsWorld
          = Normal (js "That's a good question! " ++ response).
Proof.
  split; [reflexivity |].
  pose proof (generateAIResponse_counts_spaces sportsWorld eq_refl) as H.
  destruct H as (response & H).
  exists response.
  unfold result.
  rewrite (H (js "word    ")), (H []), (H (js "a b c d e?")).
  repeat split; reflexivity.
Defined.

(* ===================================================================== *)
(** * More about the statistics *)
(* ===================================================================== *)

Lemma total_range (ms : list Message) (z : Z) :
  Forall scoreInRange ms ->
  (z <= fold_left (fun s m => (s + scoreOrZero m)%Z) ms z
     <= z + 100 * Z.of_nat (List.length ms))%Z.
Proof.
  intro H. revert z. induction H as [| m ms Hm Hms IH]; intro z.
  - cbn. lia.
  - cbn [fold_left List.length]. specialize (IH (z + scoreOrZero m)%Z).
    unfold scoreInRange, scoreOrZero in *.
    destruct (pronunciationScore m); lia.
Qed.

Lemma Math_round_range (total n : Z) :
  (0 < n)%Z -> (0 <= total <= 100 * n)%Z ->
  (0 <= Math_round total n <= 100)%Z.
Proof.
  intros Hn Ht. unfold Math_round. split.
  - apply Z.div_pos; lia.
  - assert ((2 * total + n) / (2 * n) < 101)%Z; [| lia].
    apply Z.div_lt_upper_bound; lia.
Qed.

Lemma getAveragePronunciationScore_range (c : Conversation) (w : World) :
  scoresInRange c ->
  exists average,
    getAveragePronunciationScore (Some c) w = (Normal average, w)
    /\ (0 <= average <= 100)%Z.
Proof.
  intro H. unfold getAveragePronunciationScore, tryCatch, ret.
  set (users := filter isUser (messages c)).
  assert (Hu : Forall scoreInRange users).
  { unfold scoresInRange in H. rewrite Forall_forall in *.
    intros m Hm. apply H. apply filter_In in Hm. apply Hm. }
  destruct users as [| m ms] eqn:E.
  - exists 0%Z. split; [reflexivity | lia].
  - eexists. split; [reflexivity |].
    apply Math_round_range; [cbn [List.length]; lia |].
    pose proof (total_range (m :: ms) 0 Hu). lia.
Qed.

(** X4: when the scores of a conversation's messages lie between 0 and 100
    (as those [assessPronunciation] gives do), so does the average
    [getAveragePronunciationScore] shows, and computing it changes
    nothing. *)
Theorem average_in_range :
  forall (c : Conversation) (w : World),
    scoresInRange c ->
    exists average,
      getAveragePronunciationScore (Some c) w = (Normal average, w)
      /\ (0 <= average <= 100)%Z.
Proof. exact getAveragePronunciationScore_range. Qed.

Lemma average_in_range_witness :
  scoresInRange (numbered 7)
  /\ exists average,
       getAveragePronunciationScore (Some (numbered 7)) w0 = (Normal average, w0)
       /\ (0 <= average <= 100)%Z.
Proof.
  assert (H : scoresInRange (numbered 7)).
  { unfold scoresInRange, numbered, scoreInRange. cbn [messages].
    repeat constructor; cbn; lia. }
  split; [exact H |].
  apply (average_in_range (numbered 7) w0 H).
Defined.

(** X5: [getCorrectionCount] counts user messages only: it never exceeds
    the number of user messages, a conversation of AI messages counts 0,
    and for no conversation at all the answer is 0 with one line on the
    console. *)
Theorem getCorrectionCount_bounds :
  forall (c : Conversation) (w : World),
    (exists n,
       getCorrectionCount (Some c) w = (Normal n, w)
       /\ (n <= List.length (filter isUser (messages c)))%nat
       /\ (n <= List.length (messages c))%nat)
    /\ result (getCorrectionCount None) w = Normal 0%nat
    /\ List.length (console (exec (getCorrectionCount None) w))
       = S (List.length (console w)).
Proof.
  intros c w. split; [| split].
  - unfold getCorrectionCount, tryCatch, ret. eexists.
    split; [reflexivity |].
    assert (H : forall ms : list Message,
               (List.length (filter (fun m => isUser m && hasCorrection m) ms)
                <= List.length (filter isUser ms) <= List.length ms)%nat).
    { induction ms as [| m ms IH]; [cbn; lia |].
      cbn [filter]. destruct (isUser m); cbn [andb];
        [destruct (hasCorrection m) |]; cbn [List.length]; lia. }
    specialize (H (messages c)). lia.
  - reflexivity.
  - cbn. rewrite length_app. cbn [List.length]. lia.
Qed.

(** X6: the preview of a conversation is at most 53 code units long; it is
    the placeholder when the conversation has no user message, the first
    user message itself when that has at most 50 units, and otherwise its
    first 50 units followed by three dots. *)
Theorem getConversationPreview_short :
  forall (c : Conversation) (w : World),
    exists preview,
      getConversationPreview (Some c) w = (Normal preview, w)
      /\ (List.length preview <= 53)%nat
      /\ match filter isUser (messages c) with
         | [] => preview = js "No messages"
         | m :: _ =>
             if (List.length (text m) <=? 50)%nat
             then preview = text m
             else preview = firstn 50 (text m) ++ js "..."
                  /\ List.length preview = 53%nat
         end.
Proof.
  intros c w. exists (previewText c).
  split; [apply getConversationPreview_run |].
  unfold previewText.
  destruct (filter isUser (messages c)) as [| m ms].
  - split; [vm_compute; lia | reflexivity].
  - destruct (Nat.ltb_spec 50 (List.length (text m))) as [Hl | Hl];
      destruct (Nat.leb_spec (List.length (text m)) 50) as [Hl' | Hl'];
      try lia.
    + assert (E : List.length (firstn 50 (text m) ++ js "...") = 53%nat).
      { rewrite length_app, length_firstn.
        change (List.length (js "...")) with 3%nat. lia. }
      split; [lia | split; [reflexivity | exact E]].
    + split; [lia | reflexivity].
Qed.

(** X7: the duration of a closed conversation comes from its own two time
    stamps (the clock is not read and nothing changes): it is the whole
    number of minutes, rounded towards minus infinity, so that under a
    minute is 0 and an end before the start is negative. *)
Theorem calculateSessionDuration_closed :
  forall (c : Conversation) (e : N) (w : World),
    endTime c = Some e ->
    exists minutes : Z,
      calculateSessionDuration (Some c) w
      = (Normal (Number_toString minutes ++ js " min"), w)
      /\ (60000 * minutes <= Z.of_N e - Z.of_N (startTime c)
          < 60000 * (minutes + 1))%Z.
Proof.
  intros c e w He.
  unfold calculateSessionDuration, tryCatch. rewrite He.
  eexists. split; [reflexivity |].
  pose proof (Z.div_mod (Z.of_N e - Z.of_N (startTime c)) 60000).
  pose proof (Z.mod_pos_bound (Z.of_N e - Z.of_N (startTime c)) 60000).
  lia.
Qed.

Lemma calculateSessionDuration_closed_witness :
  endTime (numbered 7) = Some 8
  /\ result (calculateSessionDuration (Some (numbered 7))) w0
     = Normal (js "0 min").
Proof.
  split; [reflexivity |].
  destruct (calculateSessionDuration_closed (numbered 7) 8 w0 eq_refl)
    as (m & Hrun & Hm).
  unfold result. rewrite Hrun. cbn [fst].
  change (Z.of_N 8 - Z.of_N (startTime (numbered 7)))%Z with 1%Z in Hm.
  replace m with 0%Z by lia. reflexivity.
Defined.

(** An open conversation is measured against the clock, which is read
    once. *)
Example calculateSessionDuration_open :
  let w := exec startNewConversation w0 in
  result (calculateSessionDuration (currentConversation (self w))) w
  = Normal (js "0 min")
  /\ ticks (exec (calculateSessionDuration (currentConversation (self w))) w)
     = S (ticks w).
Proof. vm_compute. split; reflexivity. Qed.

(* ===================================================================== *)
(** * More about the history view *)
(* ===================================================================== *)

Lemma filter_all {A} (l : list A) : filter (fun _ => true) l = l.
Proof. induction l as [| x l IH]; cbn; congruence. Qed.

(** X8: [filterHistory] returns normally and touches the filtered list
    only: the history, the conversation and the store stay as they are.
    With an empty query the filtered list is the whole history; otherwise
    it is the history with some conversations left out, in the same order.
    For a query and a topic of ASCII units, a conversation whose topic
    contains the query, letter case aside, is not left out; and if its
    preview is of ASCII units as well, it is kept exactly when the topic or
    the preview contains the query, letter case aside. *)
Theorem filterHistory_selects :
  forall w : World,
    let w' := exec filterHistory w in
    let q := searchQuery (self w) in
    result filterHistory w = Normal tt
    /\ conversationHistory (self w') = conversationHistory (self w)
    /\ currentConversation (self w') = currentConversation (self w)
    /\ localStorage w' = localStorage w
    /\ exists keep,
         filteredHistory (self w') = filter keep (conversationHistory (self w))
         /\ (q = [] -> forall c, keep c = true)
         /\ (q <> [] -> ascii q = true ->
             forall c,
               ascii (topic c) = true ->
               (includes (toLowerCase (topic c)) (toLowerCase q) = true ->
                keep c = true)
               /\ (ascii (previewText c) = true ->
                   keep c
                   = includes (toLowerCase (topic c)) (toLowerCase q)
                     || includes (toLowerCase (previewText c))
                          (toLowerCase q))).
Proof.
  intros w w' q. subst w' q. unfold result, exec. rewrite filterHistory_run.
  cbn [fst snd].
  repeat (split; [reflexivity |]).
  destruct (searchQuery (self w)) as [| x q] eqn:Hq.
  - exists (fun _ => true). split; [| split; [reflexivity | congruence]].
    rewrite filter_all. open_world w. reflexivity.
  - exists (matchesQuery (toLowerCase (x :: q))). split; [| split].
    + open_world w. reflexivity.
    + discriminate.
    + intros _ _ c _. unfold matchesQuery. split.
      * intro H. rewrite H. reflexivity.
      * reflexivity.
Qed.

Lemma filterHistory_selects_witness :
  searchQuery (self topicSearchWorld) <> []
  /\ ascii (searchQuery (self topicSearchWorld)) = true
  /\ filteredHistory (self (exec filterHistory topicSearchWorld))
     = [greetingOnly].
Proof.
  split; [discriminate |]. split; [reflexivity |].
  pose proof (filterHistory_selects topicSearchWorld) as H.
  cbv zeta in H.
  destruct H as (_ & _ & _ & _ & keep & Hf & _ & Hk).
  specialize (Hk ltac:(discriminate) eq_refl).
  destruct (Hk greetingOnly eq_refl) as [Hfood _].
  destruct (Hk (numbered 3) eq_refl) as [_ Htravel].
  specialize (Hfood eq_refl). specialize (Htravel eq_refl).
  rewrite Hf.
  change (conversationHistory (self topicSearchWorld))
    with [greetingOnly; numbered 3].
  cbn [filter]. rewrite Hfood, Htravel. reflexivity.
Defined.

(** X9: the placeholder of the preview is searched like a message: a
    conversation without user messages is kept by every query contained in
    "no messages". *)
Theorem filterHistory_matches_placeholder :
  forall (w : World) (c : Conversation),
    In c (conversationHistory (self w)) ->
    filter isUser (messages c) = [] ->
    searchQuery (self w) <> [] ->
    includes (js "no messages") (toLowerCase (searchQuery (self w))) = true ->
    In c (filteredHistory (self (exec filterHistory w))).
Proof.
  intros w c Hin Hu Hq Hm. unfold exec. rewrite filterHistory_run.
  destruct (searchQuery (self w)) as [| x q] eqn:E; [congruence |].
  assert (Hk : matchesQuery (toLowerCase (x :: q)) c = true).
  { unfold matchesQuery, previewText. rewrite Hu.
    change (toLowerCase (js "No messages")) with (js "no messages").
    rewrite Hm. apply orb_true_r. }
  open_world w. cbn in *. apply filter_In. split; assumption.
Qed.

Lemma filterHistory_matches_placeholder_witness :
  In greetingOnly (conversationHistory (self searchingWorld))
  /\ In greetingOnly (filteredHistory (self (exec filterHistory searchingWorld))).
Proof.
  assert (H : In greetingOnly (conversationHistory (self searchingWorld)))
    by (left; reflexivity).
  split; [exact H |].
  apply (filterHistory_matches_placeholder searchingWorld greetingOnly H);
    [reflexivity | discriminate | reflexivity].
Defined.

(** X10: declining the confirmation, [clearHistory] does nothing at all.
    Confirmed, it returns normally with the history, the filtered list and
    the selection empty and both keys gone from the store, so that a
    component started on that store finds no history and no conversation;
    the conversation in progress itself stays current. *)
Theorem clearHistory_clears :
  forall w : World,
    clearHistory false w = (Normal tt, w)
    /\ let w' := exec (clearHistory true) w in
       result (clearHistory true) w = Normal tt
       /\ conversationHistory (self w') = []
       /\ filteredHistory (self w') = []
       /\ selectedHistoryConversation (self w') = None
       /\ localStorage w' = mkStorage None None
       /\ currentConversation (self w') = currentConversation (self w)
       /\ isConversationActive (self w') = isConversationActive (self w)
       /\ forall sy q n c k r d l t,
            let fresh := mkWorld (newTutor sy) (localStorage w') q n c k r d l t in
            conversationHistory (self (exec loadHistory fresh)) = []
            /\ currentConversation (self (exec loadHistory fresh)) = None.
Proof.
  intro w. split; [reflexivity |].
  open_world w. cbn. repeat split; reflexivity.
Qed.

(* ===================================================================== *)
(** * Recording what was said *)
(* ===================================================================== *)

Lemma wp_run {A} (m : M A) (a : A) (w w' : World) Q R :
  m w = (Normal a, w') -> Q a w' -> wp m Q R w.
Proof. intros H HQ. unfold wp. rewrite H. exact HQ. Qed.

Lemma wp_normal {A} (m : M A) (Q : A -> World -> Prop) (w : World) :
  wp m Q (fun _ _ => False) w ->
  exists a w', m w = (Normal a, w') /\ Q a w'.
Proof.
  unfold wp. destruct (m w) as [[a | e] w']; [eauto | intros []].
Qed.

Lemma wp_result {A} (m : M A) (a : A) (Q : World -> Prop) (w : World) :
  wp m (fun r w' => r = a /\ Q w') (fun _ _ => False) w ->
  exists w', m w = (Normal a, w') /\ Q w'.
Proof.
  intro H. apply wp_normal in H as (r & w' & Hrun & -> & HQ). eauto.
Qed.

(** [saveCurrentConversation] changes the store at most, and there the
    snapshot only. *)
Lemma saveCurrentConversation_frame (w : World) :
  wp saveCurrentConversation
    (fun _ w' =>
       self w' = self w
       /\ key_conversationHistory (localStorage w')
          = key_conversationHistory (localStorage w)
       /\ key_currentConversation (localStorage w')
          = match currentConversation (self w) with
            | Some c =>
                if quotaExceeded w (writes w)
                then key_currentConversation (localStorage w)
                else Some (JSON_stringify c)
            | None => key_currentConversation (localStorage w)
            end)
    (fun _ _ => False) w.
Proof.
  unfold saveCurrentConversation, wp, tryCatch, bind, gets, setItem,
    console_error.
  destruct (currentConversation (self w)) as [c |]; cbn.
  - destruct (quotaExceeded w (writes w)); cbn; auto.
  - auto.
Qed.

(** [stopListening] without assumptions: it ends listening and leaves the
    conversation, the history, the messages shown and the store alone. *)
Lemma stopListening_frame (w : World) :
  wp stopListening
    (fun _ w' =>
       isListening (self w') = false
       /\ currentConversation (self w') = currentConversation (self w)
       /\ conversationHistory (self w') = conversationHistory (self w)
       /\ isConversationActive (self w') = isConversationActive (self w)
       /\ errorMessage (self w') = errorMessage (self w)
       /\ localStorage w' = localStorage w)
    (fun _ _ => False) w.
Proof.
  unfold stopListening, updateStatus. wp_steps; repeat split; reflexivity.
Qed.

Ltac use L :=
  eapply wp_mono; [apply L | cbv beta; intros ? ? ? | intros ? ? []].

Lemma processUserSpeech_run :
  forall (transcript : jsstring) (c : Conversation) (w : World),
    currentConversation (self w) = Some c ->
    exists suggestion score feedback w',
      processUserSpeech transcript w
      = (Normal (Some (800, replyTo transcript)), w')
      /\ result (generateCorrection transcript) w = Normal suggestion
      /\ result (assessPronunciation transcript) w = Normal score
      /\ result (generatePronunciationFeedback transcript) w = Normal feedback
      /\ (0 <= score <= 100)%Z
      /\ let recorded :=
           with_messages c
             (messages c
              ++ [mkMessage (clock w (ticks w)) user transcript
                    (clock w (S (ticks w))) suggestion (Some score)
                    (Some feedback) None]) in
         currentConversation (self w') = Some recorded
         /\ conversationHistory (self w') = conversationHistory (self w)
         /\ isListening (self w') = false
         /\ key_conversationHistory (localStorage w')
            = key_conversationHistory (localStorage w)
         /\ key_currentConversation (localStorage w')
            = if quotaExceeded w (writes w)
              then key_currentConversation (localStorage w)
              else Some (JSON_stringify recorded).
Proof.
  intros transcript c w Hcur.
  destruct (generateCorrection_pure transcript) as [suggestion Hs].
  destruct (assessPronunciation_score transcript) as (score & Hz & Hscore).
  pose proof (fun w => feedback_band transcript score w (Hscore w)) as Hf.
  set (feedback := if (90 <=? score)%Z then _ else _) in Hf.
  exists suggestion, score, feedback.
  unfold result. rewrite Hs, Hscore, Hf. cbn [fst].
  enough (H : wp (processUserSpeech transcript)
                (fun r w' =>
                   r = Some (800, replyTo transcript)
                   /\ currentConversation (self w')
                      = Some (with_messages c
                                (messages c
                                 ++ [mkMessage (clock w (ticks w)) user transcript
                                       (clock w (S (ticks w))) suggestion
                                       (Some score) (Some feedback) None]))
                   /\ conversationHistory (self w') = conversationHistory (self w)
                   /\ isListening (self w') = false
                   /\ key_conversationHistory (localStorage w')
                      = key_conversationHistory (localStorage w)
                   /\ key_currentConversation (localStorage w')
                      = if quotaExceeded w (writes w)
                        then key_currentConversation (localStorage w)
                        else Some (JSON_stringify
                                     (with_messages c
                                        (messages c
                                         ++ [mkMessage (clock w (ticks w)) user
                                               transcript (clock w (S (ticks w)))
                                               suggestion (Some score)
                                               (Some feedback) None]))))
                (fun _ _ => False) w).
  { apply wp_normal in H as (r & w' & Hrun & -> & H).
    exists w'. split; [exact Hrun |].
    do 3 (split; [reflexivity |]). split; [exact Hz | exact H]. }
  unfold processUserSpeech.
  wp_rule. do 2 wp_rule. do 2 wp_rule.
  wp_rule. eapply wp_run; [apply Hs |].
  wp_rule. eapply wp_run; [apply Hscore |].
  wp_rule. eapply wp_run; [apply Hf |].
  wp_rule. wp_rule. wp_rule.
  wp_rule; cbn in Heqo; [| congruence].
  rewrite Hcur in Heqo. injection Heqo as <-.
  wp_rule. wp_rule.
  use saveCurrentConversation_frame.
  destruct H as (Hself & Hhist & Hsnap).
  wp_rule. use stopListening_frame.
  destruct H as (Hl & Hc & Hh & _ & _ & Hst).
  wp_rule.
  rewrite Hc, Hh, Hst, Hself, Hsnap, Hhist. tidy.
  repeat split; auto.
Qed.

(** X11: with a conversation current, [processUserSpeech] returns having
    set the reply timer (800 ms) and appended one user message to the
    conversation: the text as given, the correction, score and feedback
    the three assessment methods give for it, the score between 0 and 100.
    The history is untouched, listening has stopped, and the snapshot in
    the store is the new conversation unless the store refused the
    write. *)
Theorem processUserSpeech_records :
  forall (transcript : jsstring) (c : Conversation) (w : World),
    currentConversation (self w) = Some c ->
    exists suggestion score feedback w',
      processUserSpeech transcript w
      = (Normal (Some (800, replyTo transcript)), w')
      /\ result (generateCorrection transcript) w = Normal suggestion
      /\ result (assessPronunciation transcript) w = Normal score
      /\ result (generatePronunciationFeedback transcript) w = Normal feedback
      /\ (0 <= score <= 100)%Z
      /\ let recorded :=
           with_messages c
             (messages c
              ++ [mkMessage (clock w (ticks w)) user transcript
                    (clock w (S (ticks w))) suggestion (Some score)
                    (Some feedback) None]) in
         currentConversation (self w') = Some recorded
         /\ conversationHistory (self w') = conversationHistory (self w)
         /\ isListening (self w') = false
         /\ key_conversationHistory (localStorage w')
            = key_conversationHistory (localStorage w)
         /\ key_currentConversation (localStorage w')
            = if quotaExceeded w (writes w)
              then key_currentConversation (localStorage w)
              else Some (JSON_stringify recorded).
Proof. exact processUserSpeech_run. Qed.

Lemma processUserSpeech_records_witness :
  currentConversation (self talkingWorld) = Some talkingConversation
  /\ exists w',
       processUserSpeech (js "he go to school") talkingWorld
       = (Normal (Some (800, replyTo (js "he go to school"))), w').
Proof.
  assert (H : currentConversation (self talkingWorld) = Some talkingConversation)
    by (vm_compute; reflexivity).
  split; [exact H |].
  destruct (processUserSpeech_records (js "he go to school") talkingConversation
              talkingWorld H) as (s & z & f & w' & Hrun & _).
  exists w'. exact Hrun.
Defined.

(** X12: without a current conversation [processUserSpeech] records
    nothing and sets no timer: it returns with the error message set, the
    history and the store as they were, and listening not stopped. *)
Theorem processUserSpeech_without_conversation :
  forall (transcript : jsstring) (w : World),
    currentConversation (self w) = None ->
    exists w',
      processUserSpeech transcript w = (Normal None, w')
      /\ currentConversation (self w') = None
      /\ conversationHistory (self w') = conversationHistory (self w)
      /\ localStorage w' = localStorage w
      /\ isListening (self w') = isListening (self w)
      /\ errorMessage (self w')
         = js "Failed to process your speech: Cannot read properties of null (reading 'messages')".
Proof.
  intros transcript w Hcur.
  destruct (generateCorrection_pure transcript) as [suggestion Hs].
  destruct (assessPronunciation_score transcript) as (score & Hz & Hscore).
  pose proof (fun w => feedback_band transcript score w (Hscore w)) as Hf.
  apply wp_result. unfold processUserSpeech.
  wp_rule. do 2 wp_rule. do 2 wp_rule.
  wp_rule. eapply wp_run; [apply Hs |].
  wp_rule. eapply wp_run; [apply Hscore |].
  wp_rule. eapply wp_run; [apply Hf |].
  wp_rule. wp_rule. wp_rule.
  wp_rule; cbn in Heqo; [congruence |].
  wp_steps.
  open_world w. cbn in *. subst. repeat split; reflexivity.
Qed.

Lemma processUserSpeech_without_conversation_witness :
  currentConversation (self w0) = None
  /\ exists w', processUserSpeech (js "hello") w0 = (Normal None, w').
Proof.
  split; [reflexivity |].
  destruct (processUserSpeech_without_conversation (js "hello") w0 eq_refl)
    as (w' & Hrun & _).
  exists w'. exact Hrun.
Defined.

Lemma generateCorrection_nonempty (text s : jsstring) (w w' : World) :
  generateCorrection text w = (Normal (Some s), w') -> s <> [].
Proof.
  unfold generateCorrection, tryCatch, ret.
  destruct (find _ corrections) as [[bad good] |].
  - intro H. injection H as <- _. discriminate.
  - destruct (Regex.test re_plural_goes _);
      [| destruct (Regex.test re_singular_go _)];
      intro H; try discriminate; injection H as <- _; discriminate.
Qed.

Lemma correction_count_push (ms : list Message) (m : Message) :
  List.length (filter (fun m => isUser m && hasCorrection m) (ms ++ [m]))
  = (List.length (filter (fun m => isUser m && hasCorrection m) ms)
     + if isUser m && hasCorrection m then 1 else 0)%nat.
Proof.
  rewrite filter_app, length_app. cbn [filter].
  destruct (isUser m && hasCorrection m); reflexivity.
Qed.

(** X13: a recorded utterance counts as corrected exactly when
    [generateCorrection] had a suggestion for it (a suggestion is never the
    empty string): after [processUserSpeech], [getCorrectionCount] of the
    current conversation is what it was before, plus one in that case. *)
Theorem processUserSpeech_counts_correction :
  forall (transcript : jsstring) (c : Conversation) (w : World),
    currentConversation (self w) = Some c ->
    let w' := exec (processUserSpeech transcript) w in
    exists before suggestion,
      result (getCorrectionCount (Some c)) w = Normal before
      /\ result (generateCorrection transcript) w = Normal suggestion
      /\ result (getCorrectionCount (currentConversation (self w'))) w'
         = Normal (before + match suggestion with
                            | Some _ => 1
                            | None => 0
                            end)%nat.
Proof.
  intros transcript c w Hcur w'. subst w'.
  destruct (processUserSpeech_run transcript c w Hcur)
    as (s & z & f & w' & Hrun & Hs & _ & _ & _ & Hnew & _).
  unfold exec. rewrite Hrun. cbn [snd]. rewrite Hnew.
  exists (List.length (filter (fun m => isUser m && hasCorrection m) (messages c))), s.
  split; [reflexivity |]. split; [exact Hs |].
  unfold result, getCorrectionCount, tryCatch, ret. cbn [fst messages with_messages].
  rewrite correction_count_push. do 2 f_equal.
  unfold isUser, hasCorrection. cbn [type correction andb].
  destruct s as [s |]; [| reflexivity].
  destruct s as [| x s]; [| reflexivity].
  exfalso. unfold result in Hs.
  destruct (generateCorrection transcript w) as [r w1] eqn:E.
  cbn in Hs. subst r. exact (generateCorrection_nonempty _ _ _ _ E eq_refl).
Qed.

Lemma processUserSpeech_counts_correction_witness :
  currentConversation (self talkingWorld) = Some talkingConversation
  /\ result
       (getCorrectionCount
          (currentConversation
             (self (exec (processUserSpeech (js "he go to school")) talkingWorld))))
       (exec (processUserSpeech (js "he go to school")) talkingWorld)
     = Normal 1%nat.
Proof.
  assert (H : currentConversation (self talkingWorld) = Some talkingConversation)
    by (vm_compute; reflexivity).
  split; [exact H |].
  destruct (processUserSpeech_counts_correction (js "he go to school")
              talkingConversation talkingWorld H) as (n & s & Hn & Hs & Hc).
  rewrite Hc.
  vm_compute in Hn. injection Hn as <-.
  vm_compute in Hs. injection Hs as <-. reflexivity.
Defined.

(** ** The reply *)

Lemma generateAIResponse_run (userText : jsstring) (w : World) :
  exists reply,
    generateAIResponse userText w
    = (Normal reply, put_draws (S (draws w)) w).
Proof.
  unfold generateAIResponse, tryCatch, bind, gets, Math_random.
  destruct (includes userText (js "?")); [eexists; reflexivity |].
  destruct (List.length (split userText (js " ")) <? 5)%nat;
    eexists; reflexivity.
Qed.

Lemma speakResponse_frame (text : jsstring) (w : World) :
  wp (speakResponse text)
    (fun _ w' =>
       currentConversation (self w') = currentConversation (self w)
       /\ conversationHistory (self w') = conversationHistory (self w)
       /\ errorMessage (self w') = errorMessage (self w)
       /\ localStorage w' = localStorage w)
    (fun _ _ => False) w.
Proof.
  unfold speakResponse. wp_steps; repeat split; reflexivity.
Qed.

(** What [addAIMessage] does, with a conversation and without. *)
Lemma addAIMessage_effect (text : jsstring) (w : World) :
  wp (addAIMessage text)
    (fun _ w' =>
       conversationHistory (self w') = conversationHistory (self w)
       /\ key_conversationHistory (localStorage w')
          = key_conversationHistory (localStorage w)
       /\ match currentConversation (self w) with
          | Some c =>
              currentConversation (self w')
              = Some (with_messages c
                        (messages c
                         ++ [mkMessage (clock w (ticks w)) ai text
                               (clock w (S (ticks w))) None None None None]))
          | None =>
              currentConversation (self w') = None
              /\ localStorage w' = localStorage w
              /\ errorMessage (self w')
                 = js "Failed to generate AI response: Cannot read properties of null (reading 'messages')"
          end)
    (fun _ _ => False) w.
Proof.
  unfold addAIMessage.
  wp_rule. do 2 wp_rule. do 2 wp_rule. wp_rule. wp_rule. wp_rule.
  wp_rule; cbn in Heqo; rewrite Heqo.
  - wp_rule. wp_rule. use saveCurrentConversation_frame.
    destruct H as (Hself & Hhist & _).
    use speakResponse_frame.
    destruct H as (Hc & Hh & _ & Hst).
    rewrite Hc, Hh, Hst, Hself, Hhist. repeat split; reflexivity.
  - wp_steps. open_world w. cbn in *. repeat split; auto.
Qed.

(** X14: when the reply timer fires, the reply [generateAIResponse] makes
    goes to whatever conversation is current then, as one more AI message;
    if the conversation was ended in the meantime nothing is recorded: the
    history and the store are as they were and the error message is set. *)
Theorem replyTo_appends_to_current :
  forall (transcript : jsstring) (w : World),
    exists reply w',
      result (generateAIResponse transcript) w = Normal reply
      /\ replyTo transcript w = (Normal tt, w')
      /\ conversationHistory (self w') = conversationHistory (self w)
      /\ match currentConversation (self w) with
         | Some c =>
             currentConversation (self w')
             = Some (with_messages c
                       (messages c
                        ++ [mkMessage (clock w (ticks w)) ai reply
                              (clock w (S (ticks w))) None None None None]))
         | None =>
             currentConversation (self w') = None
             /\ localStorage w' = localStorage w
             /\ errorMessage (self w')
                = js "Failed to generate AI response: Cannot read properties of null (reading 'messages')"
         end.
Proof.
  intros transcript w.
  destruct (generateAIResponse_run transcript w) as (reply & Hr).
  exists reply.
  pose proof (addAIMessage_effect reply (put_draws (S (draws w)) w)) as H.
  apply wp_normal in H as ([] & w' & Hrun & Hh & _ & Hc).
  exists w'. unfold result. rewrite Hr. cbn [fst].
  split; [reflexivity |].
  split; [unfold replyTo, bind; rewrite Hr; exact Hrun |].
  open_world w. cbn in *. split; assumption.
Qed.

(** ** The recognizer's results *)

Lemma finalTranscript_interim (acc : jsstring) (rs : list (jsstring * bool)) :
  (forall r, In r rs -> snd r = false) ->
  fold_left
    (fun (acc : jsstring) (r : jsstring * bool) =>
       if snd r then acc ++ fst r else acc) rs acc
  = acc.
Proof.
  revert acc. induction rs as [| r rs IH]; intros acc H; [reflexivity |].
  cbn [fold_left]. rewrite (H r) by (left; reflexivity).
  apply IH. intros r' Hr'. apply H. right. exact Hr'.
Qed.

(** X15: results that are not final never reach the conversation: when
    every result from [resultIndex] on is interim, [recognition_onresult]
    leaves the world as it is and sets no timer, whatever the results
    before [resultIndex] were. *)
Theorem recognition_onresult_interim :
  forall (resultIndex : nat) (results : list (jsstring * bool)) (w : World),
    (forall r, In r (skipn resultIndex results) -> snd r = false) ->
    recognition_onresult resultIndex results w = (Normal None, w).
Proof.
  intros i rs w H. unfold recognition_onresult, finalTranscript.
  rewrite finalTranscript_interim by exact H. reflexivity.
Qed.

Lemma recognition_onresult_interim_witness :
  (forall r,
     In r (skipn 1 [(js "he go", true); (js "to sch", false)]) ->
     snd r = false)
  /\ recognition_onresult 1 [(js "he go", true); (js "to sch", false)] talkingWorld
     = (Normal None, talkingWorld).
Proof.
  assert (H : forall r,
             In r (skipn 1 [(js "he go", true); (js "to sch", false)]) ->
             snd r = false).
  { cbn [skipn In]. intros r [<- | []]. reflexivity. }
  split; [exact H |].
  apply (recognition_onresult_interim 1 _ talkingWorld H).
Defined.

(** ** The recording *)

(** X16: when the recorder stops, the recording goes to the last message
    if that is the user's: the message gets the URL and nothing else of
    the messages changes, and the recording is listed.  After an AI
    message the recording is listed without a message and the store is not
    written; with no conversation or no message nothing happens at all. *)
Theorem mediaRecorder_onstop_attaches :
  forall (audioUrl : jsstring) (audioBlob : N) (w : World),
    exists w',
      mediaRecorder_onstop audioUrl audioBlob w = (Normal tt, w')
      /\ conversationHistory (self w') = conversationHistory (self w)
      /\ match currentConversation (self w) with
         | None => w' = w
         | Some c =>
             match rev (messages c) with
             | [] => w' = w
             | last :: before =>
                 exists c',
                   currentConversation (self w') = Some c'
                   /\ audioRecordings c'
                      = audioRecordings c
                        ++ [mkAudioRecording audioUrl (Some audioBlob)]
                   /\ List.map text (messages c') = List.map text (messages c)
                   /\ match type last with
                      | user =>
                          messages c'
                          = rev before ++ [with_audioUrl last (Some audioUrl)]
                      | ai =>
                          messages c' = messages c
                          /\ localStorage w' = localStorage w
                      end
             end
         end.
Proof.
  intros u b w. apply wp_result.
  unfold mediaRecorder_onstop. wp_steps.
  - repeat split; reflexivity.
  - use saveCurrentConversation_frame. destruct H as (Hself & _ & _).
    rewrite Hself. split; [destruct a; reflexivity |].
    split; [reflexivity |].
    eexists. split; [reflexivity |].
    split; [reflexivity |]. split; [| reflexivity].
    cbn [messages with_messages with_audioRecordings].
    rewrite <- (rev_involutive (messages c)), Heql.
    cbn [rev]. rewrite !map_app. reflexivity.
  - split; [reflexivity |]. split; [reflexivity |].
    eexists. split; [reflexivity |].
    split; [reflexivity |]. repeat split; reflexivity.
  - repeat split; reflexivity.
Qed.

(* ===================================================================== *)
(** * The life of a conversation *)
(* ===================================================================== *)

(** What [saveConversation] does to the history, the filtered list and the
    store, according to whether the store takes the write. *)
Lemma saveConversation_effect (c : Conversation) (w : World) :
  wp (saveConversation c)
    (fun _ w' =>
       let h' := firstn 50 (closedAt (clock w (ticks w)) c
                            :: conversationHistory (self w)) in
       conversationHistory (self w') = h'
       /\ currentConversation (self w') = currentConversation (self w)
       /\ successMessage (self w') = successMessage (self w)
       /\ if quotaExceeded w (writes w)
          then localStorage w' = localStorage w
               /\ filteredHistory (self w') = filteredHistory (self w)
               /\ errorMessage (self w')
                  = js "Failed to save conversation: QuotaExceededError"
          else localStorage w' = mkStorage (Some (JSON_stringify_all h')) None
               /\ filteredHistory (self w') = h'
               /\ errorMessage (self w') = errorMessage (self w))
    (fun _ _ => False) w.
Proof.
  cbv zeta. rewrite <- firstn_if.
  unfold wp. open_world w.
  unfold saveConversation, closedAt, tryCatch, bind, gets, update, setItem,
    showError, console_error, setTimeout.
  run; repeat split; reflexivity.
Qed.

Lemma showSuccess_frame (msg : jsstring) (w : World) :
  wp (showSuccess msg)
    (fun _ w' =>
       self w' = set_successMessage msg (self w)
       /\ localStorage w' = localStorage w)
    (fun _ _ => False) w.
Proof. unfold showSuccess. wp_steps. split; reflexivity. Qed.

Lemma stopListening_keeps_messages (w : World) :
  wp stopListening
    (fun _ w' =>
       currentConversation (self w') = currentConversation (self w)
       /\ conversationHistory (self w') = conversationHistory (self w)
       /\ filteredHistory (self w') = filteredHistory (self w)
       /\ errorMessage (self w') = errorMessage (self w)
       /\ successMessage (self w') = successMessage (self w)
       /\ localStorage w' = localStorage w)
    (fun _ _ => False) w.
Proof.
  unfold stopListening, updateStatus. wp_steps; repeat split; reflexivity.
Qed.

(** Ending a conversation that has messages. *)
Lemma endConversation_effect (c : Conversation) (w : World) :
  currentConversation (self w) = Some c ->
  messages c <> [] ->
  wp endConversation
    (fun _ w' =>
       let h' := firstn 50 (with_endTime c (Some (clock w (ticks w)))
                            :: conversationHistory (self w)) in
       conversationHistory (self w') = h'
       /\ currentConversation (self w') = None
       /\ successMessage (self w') = js "Conversation ended and saved to history"
       /\ if quotaExceeded w (writes w)
          then localStorage w' = localStorage w
               /\ filteredHistory (self w') = filteredHistory (self w)
               /\ errorMessage (self w')
                  = js "Failed to save conversation: QuotaExceededError"
          else localStorage w' = mkStorage (Some (JSON_stringify_all h')) None
               /\ filteredHistory (self w') = h'
               /\ errorMessage (self w') = errorMessage (self w))
    (fun _ _ => False) w.
Proof.
  intros Hcur Hms. unfold endConversation.
  wp_rule. wp_rule. wp_rule. rewrite Hcur. wp_rule.
  destruct (messages c) as [| m ms] eqn:Em; [congruence |].
  change (0 <? List.length (m :: ms))%nat with true. cbv iota.
  wp_rule. wp_rule. wp_rule. wp_rule.
  use saveConversation_effect. cbv zeta in H.
  destruct H as (Hh & Hc & Hsm & Hq).
  wp_rule. wp_rule. wp_rule.
  use stopListening_keeps_messages.
  destruct H as (_ & Hh1 & Hf1 & He1 & _ & Hst1).
  wp_steps. cbv zeta.
  cbn -[firstn js] in Hh, Hq, Hh1, Hf1, He1, Hst1 |- *.
  rewrite Hh1, Hf1, He1, Hst1, Hh.
  repeat split; try reflexivity.
  destruct (quotaExceeded w (writes w)); exact Hq.
Qed.

(** X17: what is archived survives a restart.  When a conversation with
    messages is ended and the store takes the write, a component started
    afterwards on that store loads exactly the history the old one had in
    memory (as JSON keeps it), the ended conversation first, and no active
    conversation. *)
Theorem archive_survives_restart :
  forall (c : Conversation) (w : World),
    currentConversation (self w) = Some c ->
    messages c <> [] ->
    quotaExceeded w (writes w) = false ->
    forall sy q n k t r d l tm,
      let w1 := exec endConversation w in
      let restarted :=
        exec loadHistory
          (mkWorld (newTutor sy) (localStorage w1) q n k t r d l tm) in
      conversationHistory (self restarted)
      = List.map serializable (conversationHistory (self w1))
      /\ hd_error (conversationHistory (self restarted))
         = Some (serializable (with_endTime c (Some (clock w (ticks w)))))
      /\ currentConversation (self restarted) = None.
Proof.
  intros c w Hcur Hms Hq sy q n k t r d l tm w1 restarted.
  subst restarted w1.
  pose proof (endConversation_effect c w Hcur Hms) as H.
  apply wp_normal in H as ([] & w' & Hrun & Hh & _ & _ & Hst).
  rewrite Hq in Hst. destruct Hst as (Hst & _).
  assert (E : exec endConversation w = w')
    by (unfold exec; rewrite Hrun; reflexivity).
  rewrite !E, Hst, Hh.
  cbn -[firstn List.map js].
  change 50%nat with (S 49). rewrite firstn_cons.
  repeat split; reflexivity.
Qed.

Lemma archive_survives_restart_witness :
  currentConversation (self talkingWorld) = Some talkingConversation
  /\ conversationHistory
       (self (exec loadHistory
                (newWorld (localStorage (exec endConversation talkingWorld)))))
     = List.map serializable
         (conversationHistory (self (exec endConversation talkingWorld))).
Proof.
  assert (H : currentConversation (self talkingWorld) = Some talkingConversation)
    by (vm_compute; reflexivity).
  split; [exact H |].
  apply (archive_survives_restart talkingConversation talkingWorld H);
    [vm_compute; discriminate | reflexivity].
Defined.

(** X18: when the store refuses the write, ending a conversation still
    moves it to the history in memory and still announces that it was
    saved, next to the error; the store and the filtered list are left as
    they were, so the store keeps the snapshot of the ended conversation
    and the history without it. *)
Theorem endConversation_store_refuses :
  forall (c : Conversation) (w : World),
    currentConversation (self w) = Some c ->
    messages c <> [] ->
    quotaExceeded w (writes w) = true ->
    let w' := exec endConversation w in
    result endConversation w = Normal tt
    /\ conversationHistory (self w')
       = firstn 50 (with_endTime c (Some (clock w (ticks w)))
                    :: conversationHistory (self w))
    /\ currentConversation (self w') = None
    /\ localStorage w' = localStorage w
    /\ filteredHistory (self w') = filteredHistory (self w)
    /\ errorMessage (self w')
       = js "Failed to save conversation: QuotaExceededError"
    /\ successMessage (self w') = js "Conversation ended and saved to history".
Proof.
  intros c w Hcur Hms Hq w'. subst w'.
  pose proof (endConversation_effect c w Hcur Hms) as H.
  apply wp_normal in H as ([] & w' & Hrun & Hh & Hc & Hs & Hst).
  rewrite Hq in Hst. destruct Hst as (Hst & Hf & He).
  unfold result, exec. rewrite Hrun. cbn [fst snd].
  repeat split; assumption.
Qed.

Lemma endConversation_store_refuses_witness :
  currentConversation (self fullStoreWorld) = Some talkingConversation
  /\ localStorage (exec endConversation fullStoreWorld)
     = localStorage fullStoreWorld.
Proof.
  assert (H : currentConversation (self fullStoreWorld) = Some talkingConversation)
    by (vm_compute; reflexivity).
  split; [exact H |].
  apply (endConversation_store_refuses talkingConversation fullStoreWorld H);
    [vm_compute; discriminate | reflexivity].
Defined.

(** X19: what was said survives a restart, too.  After
    [processUserSpeech], if the store took the write and the stored
    history is not corrupt, a component started on that store has the
    conversation with the new message as its current one (as JSON keeps
    it) and counts it as active. *)
Theorem utterance_survives_restart :
  forall (transcript : jsstring) (c : Conversation) (w : World),
    currentConversation (self w) = Some c ->
    quotaExceeded w (writes w) = false ->
    corrupt (key_conversationHistory (localStorage w)) = false ->
    forall sy q n k t r d l tm,
      let w1 := exec (processUserSpeech transcript) w in
      let restarted :=
        exec loadHistory
          (mkWorld (newTutor sy) (localStorage w1) q n k t r d l tm) in
      currentConversation (self restarted)
      = option_map serializable (currentConversation (self w1))
      /\ (exists m, option_map messages (currentConversation (self restarted))
                    = Some (messages c ++ [m])
                    /\ text m = transcript /\ type m = user)
      /\ isConversationActive (self restarted) = true.
Proof.
  intros transcript c w Hcur Hq Hk sy q n k t r d l tm w1 restarted.
  subst restarted w1.
  destruct (processUserSpeech_run transcript c w Hcur)
    as (s & z & f & w' & Hrun & _ & _ & _ & _ & Hnew & _ & _ & Hkh & Hkc).
  rewrite Hq in Hkc.
  assert (E : exec (processUserSpeech transcript) w = w')
    by (unfold exec; rewrite Hrun; reflexivity).
  rewrite !E, Hnew.
  destruct (localStorage w') as [kh kc] eqn:Est. cbn in Hkh, Hkc. subst kh kc.
  destruct (key_conversationHistory (localStorage w)) as [[| | h] |];
    try discriminate; cbn;
    (split; [reflexivity |]); (split; [| reflexivity]);
    eexists; repeat split; reflexivity.
Qed.

Lemma utterance_survives_restart_witness :
  currentConversation (self talkingWorld) = Some talkingConversation
  /\ isConversationActive
       (self (exec loadHistory
                (newWorld
                   (localStorage
                      (exec (processUserSpeech (js "I love it")) talkingWorld)))))
     = true.
Proof.
  assert (H : currentConversation (self talkingWorld) = Some talkingConversation)
    by (vm_compute; reflexivity).
  split; [exact H |].
  apply (utterance_survives_restart (js "I love it") talkingConversation
           talkingWorld H); reflexivity.
Defined.

(** ** Pausing, resuming, starting up and shutting down *)

Lemma pauseConversation_run (w : World) :
  exists w',
    pauseConversation w = (Normal tt, w')
    /\ isConversationActive (self w') = false
    /\ isListening (self w') = false
    /\ currentConversation (self w') = currentConversation (self w)
    /\ conversationHistory (self w') = conversationHistory (self w)
    /\ selectedTopic (self w') = selectedTopic (self w)
    /\ localStorage w' = localStorage w
    /\ clock w' = clock w /\ ticks w' = ticks w
    /\ (recognition (self w) <> None -> recognition (self w') <> None).
Proof.
  open_world w.
  unfold pauseConversation, stopListening, updateStatus, showSuccess,
    tryCatch, bind, gets, update, setTimeout.
  run; eexists; repeat split; try reflexivity; try discriminate; auto.
Qed.

(** X20: a paused conversation is not resumed.  Pausing keeps the
    conversation as the current one, but marks the component inactive, and
    the next [startListening] (with a recognizer present) therefore starts
    a new conversation in its place: the paused one is then neither
    current nor in the history, in memory or in the store. *)
Theorem pause_then_listen_discards :
  forall w : World,
    recognition (self w) <> None ->
    let w1 := exec pauseConversation w in
    let w2 := exec startListening_begin w1 in
    currentConversation (self w1) = currentConversation (self w)
    /\ isConversationActive (self w1) = false
    /\ result startListening_begin w1 = Normal true
    /\ (exists greeting,
          currentConversation (self w2)
          = Some (mkConversation (clock w (ticks w)) (clock w (S (ticks w)))
                    None (selectedTopic (self w)) (js "beginner")
                    [mkMessage (clock w (S (S (ticks w)))) ai greeting
                       (clock w (S (S (S (ticks w))))) None None None None]
                    []))
    /\ conversationHistory (self w2) = conversationHistory (self w)
    /\ key_conversationHistory (localStorage w2)
       = key_conversationHistory (localStorage w).
Proof.
  intros w Hrec w1 w2. subst w2 w1.
  destruct (pauseConversation_run w)
    as (w1 & Hrun1 & Hact & _ & Hcur & Hh & Htopic & Hst & Hclock & Hticks & Hr).
  specialize (Hr Hrec).
  assert (E1 : exec pauseConversation w = w1)
    by (unfold exec; rewrite Hrun1; reflexivity).
  rewrite !E1.
  destruct (startNewConversation_run w1)
    as (w2 & g & Hrun2 & _ & Hcur2 & _ & Hh2 & Hst2).
  assert (E2 : startListening_begin w1 = (Normal true, w2)).
  { unfold startListening_begin, tryCatch. rewrite bind_gets.
    destruct (recognition (self w1)) as [r |]; [| congruence].
    rewrite bind_gets, Hact.
    erewrite bind_Normal by exact Hrun2. reflexivity. }
  unfold result, exec. rewrite E2. cbn [fst snd].
  rewrite Hcur2, Hh2, Hst2, Hclock, Hticks, Htopic, Hh, Hst.
  repeat split; auto. exists g. reflexivity.
Qed.

Lemma pause_then_listen_discards_witness :
  recognition (self listeningWorld) <> None
  /\ conversationHistory
       (self (exec startListening_begin (exec pauseConversation listeningWorld)))
     = conversationHistory (self listeningWorld).
Proof.
  assert (H : recognition (self listeningWorld) <> None)
    by (vm_compute; discriminate).
  split; [exact H |].
  apply (pause_then_listen_discards listeningWorld H).
Defined.

Lemma loadHistory_run (w : World) :
  exists w',
    loadHistory w = (Normal tt, w')
    /\ selectedTopic (self w') = selectedTopic (self w)
    /\ localStorage w' = localStorage w
    /\ clock w' = clock w /\ ticks w' = ticks w.
Proof.
  destruct w as [t [saved current] q wr cl tk rn dr co tm]. destruct t.
  destruct saved as [[| | h] |]; destruct current as [[| | c] |];
    cbn -[js]; eexists; repeat split; reflexivity.
Qed.

Lemma initSpeechRecognition_run (available : bool) (w : World) :
  exists w',
    initSpeechRecognition available w = (Normal tt, w')
    /\ conversationHistory (self w') = conversationHistory (self w)
    /\ selectedTopic (self w') = selectedTopic (self w)
    /\ localStorage w' = localStorage w
    /\ clock w' = clock w /\ ticks w' = ticks w.
Proof.
  open_world w. destruct available; cbn -[js]; eexists; repeat split; reflexivity.
Qed.

(** X21: a conversation restored on startup does not outlive startup.
    [ngOnInit] returns normally, and whatever snapshot of an active
    conversation the store held, the current conversation at its end is a
    new one holding the greeting only; the history is the one
    [loadHistory] gave, so the restored conversation is not archived
    either. *)
Theorem ngOnInit_starts_afresh :
  forall (available : bool) (w : World),
    let w' := exec (ngOnInit available) w in
    result (ngOnInit available) w = Normal tt
    /\ conversationHistory (self w')
       = conversationHistory (self (exec loadHistory w))
    /\ isConversationActive (self w') = true
    /\ exists greeting,
         currentConversation (self w')
         = Some (mkConversation (clock w (ticks w)) (clock w (S (ticks w)))
                   None (selectedTopic (self w)) (js "beginner")
                   [mkMessage (clock w (S (S (ticks w)))) ai greeting
                      (clock w (S (S (S (ticks w))))) None None None None]
                   []).
Proof.
  intros available w w'. subst w'.
  destruct (loadHistory_run w) as (w1 & Hrun1 & Ht1 & _ & Hc1 & Hk1).
  destruct (initSpeechRecognition_run available w1)
    as (w2 & Hrun2 & Hh2 & Ht2 & _ & Hc2 & Hk2).
  destruct (startNewConversation_run w2)
    as (w3 & g & Hrun3 & _ & Hcur3 & Hact3 & Hh3 & _).
  assert (E : ngOnInit available w = (Normal tt, w3)).
  { unfold ngOnInit.
    erewrite bind_Normal by exact Hrun1.
    erewrite bind_Normal by exact Hrun2. exact Hrun3. }
  unfold result, exec. rewrite E, Hrun1. cbn [fst snd].
  rewrite Hh3, Hh2, Hcur3, Hact3, Hc2, Hk2, Ht2, Hc1, Hk1, Ht1.
  repeat split. exists g. reflexivity.
Qed.

(** A stored snapshot is read and then dropped. *)
Example ngOnInit_drops_snapshot :
  let w := newWorld (mkStorage None (Some (JSON_stringify (numbered 5)))) in
  option_map c_id (currentConversation (self (exec loadHistory w))) = Some 5
  /\ option_map c_id (currentConversation (self (exec (ngOnInit true) w)))
     = Some 1700000000000
  /\ conversationHistory (self (exec (ngOnInit true) w)) = [].
Proof. vm_compute. repeat split; reflexivity. Qed.

(** X22: shutting down archives nothing.  [ngOnDestroy] returns normally
    and only stops the devices: the current conversation, whether it
    counts as active, the history and the store are what they were. *)
Theorem ngOnDestroy_keeps_conversation :
  forall w : World,
    exists w',
      ngOnDestroy w = (Normal tt, w')
      /\ currentConversation (self w') = currentConversation (self w)
      /\ isConversationActive (self w') = isConversationActive (self w)
      /\ conversationHistory (self w') = conversationHistory (self w)
      /\ localStorage w' = localStorage w
      /\ recognition (self w')
         = match recognition (self w) with
           | Some r => Some (if isListening (self w) then false else r)
           | None => None
           end.
Proof.
  intro w. apply wp_result. unfold ngOnDestroy.
  wp_steps; repeat split; try reflexivity; cbn;
    rewrite ?Heqo, ?Heqb; reflexivity.
Qed.

(** X23: trouble with the devices does not touch the conversation.  An
    error of the recognizer, an error of the synthesizer and a microphone
    that was denied (or a recognizer that cannot be started) all return
    normally and leave the current conversation, the history and the store
    as they were. *)
Theorem device_errors_spare_conversation :
  forall (w : World) (kind : option jsstring) (error : jsstring)
         (granted recorder : bool),
    let spared (m : M unit) :=
      exists w',
        m w = (Normal tt, w')
        /\ currentConversation (self w') = currentConversation (self w)
        /\ conversationHistory (self w') = conversationHistory (self w)
        /\ localStorage w' = localStorage w in
    spared (recognition_onerror kind)
    /\ spared (utterance_onerror error)
    /\ spared (startListening_resume granted recorder).
Proof.
  intros w kind error granted recorder spared. subst spared. cbv beta.
  split; [| split]; apply wp_result.
  - unfold recognition_onerror. wp_rule. wp_rule. wp_rule. wp_rule. wp_rule.
    wp_rule. wp_rule.
    use stopListening_frame. destruct H as (_ & Hc & Hh & _ & _ & Hst).
    rewrite Hc, Hh, Hst. destruct a. repeat split; reflexivity.
  - unfold utterance_onerror, updateStatus.
    wp_steps; repeat split; reflexivity.
  - unfold startListening_resume. wp_steps; repeat split; reflexivity.
Qed.

(* ===================================================================== *)
(** * The component over time *)
(* ===================================================================== *)

Lemma reachable (es : list Event) (w : World) :
  startup w ->
  Invariant (after es w)
  /\ forall e, exists w', handle e (after es w) = (Normal tt, w').
Proof. intro H. apply after_keeps, startup_Invariant, H. Qed.

Lemma startup_w0 : startup w0.
Proof. repeat split. Qed.

(** X24: the cap on the history holds whatever happens.  From startup on
    a store the component wrote (or an empty one), after any sequence of
    method calls, handler runs and timers the history has at most 50
    entries, in memory and in the store. *)
Theorem history_bounded_always :
  forall (es : list Event) (w : World),
    startup w ->
    (List.length (conversationHistory (self (after es w))) <= 50)%nat
    /\ match key_conversationHistory (localStorage (after es w)) with
       | Some (Json h) => (List.length h <= 50)%nat
       | _ => True
       end.
Proof.
  intros es w H. destruct (reachable es w H) as [[Hb _ _ _ _ Hs _] _].
  split; [exact Hb |].
  unfold wellKept in Hs.
  destruct (key_conversationHistory _) as [[| | h] |]; auto. apply Hs.
Qed.

Lemma history_bounded_always_witness :
  startup w0
  /\ (List.length
        (conversationHistory
           (self (after [OnInit true; EndConversation; StartNewConversation;
                         EndConversation] w0)))
      <= 50)%nat.
Proof.
  split; [exact startup_w0 |].
  pose proof (history_bounded_always
                [OnInit true; EndConversation; StartNewConversation;
                 EndConversation] w0 startup_w0) as H.
  destruct H as [H _]. exact H.
Defined.

(** X25: no error is fatal.  From startup, after any sequence of events,
    every method call, handler and timer returns normally: no exception
    reaches the caller. *)
Theorem handlers_never_throw :
  forall (es : list Event) (e : Event) (w : World),
    startup w ->
    exists w', handle e (after es w) = (Normal tt, w').
Proof.
  intros es e w H. destruct (reachable es w H) as [_ Hr]. apply Hr.
Qed.

Lemma handlers_never_throw_witness :
  startup w0
  /\ exists w',
       handle (ReplyTimer (js "hello")) (after [OnInit false; EndConversation] w0)
       = (Normal tt, w').
Proof.
  split; [exact startup_w0 |].
  pose proof (handlers_never_throw [OnInit false; EndConversation]
                (ReplyTimer (js "hello")) w0 startup_w0) as H.
  exact H.
Defined.

(** X26: the status shown never lies.  From startup, after any sequence of
    events, the status is 'listening' when the component listens,
    'speaking' when it speaks without listening, and 'idle' otherwise. *)
Theorem status_always_consistent :
  forall (es : list Event) (w : World),
    startup w ->
    conversationStatus (self (after es w))
    = if isListening (self (after es w)) then js "listening"
      else if isSpeaking (self (after es w)) then js "speaking"
      else js "idle".
Proof.
  intros es w H. destruct (reachable es w H) as [[_ Hs _ _ _ _ _] _].
  exact Hs.
Qed.

Lemma status_always_consistent_witness :
  startup w0
  /\ conversationStatus
       (self (after [OnInit true; UtteranceStart; RecognitionStart;
                     UtteranceEnd; PauseConversation] w0))
     = js "idle".
Proof.
  split; [exact startup_w0 |].
  pose proof (status_always_consistent
                [OnInit true; UtteranceStart; RecognitionStart; UtteranceEnd;
                 PauseConversation] w0 startup_w0) as H.
  rewrite H. vm_compute. reflexivity.
Defined.

(** X27: an active component has a conversation.  From startup, after any
    sequence of events, whenever the component counts as active there is a
    current conversation for the next message to go to. *)
Theorem active_has_conversation :
  forall (es : list Event) (w : World),
    startup w ->
    isConversationActive (self (after es w)) = true ->
    exists c, currentConversation (self (after es w)) = Some c.
Proof.
  intros es w H Ha. destruct (reachable es w H) as [[_ _ Hact _ _ _ _] _].
  specialize (Hact Ha).
  destruct (currentConversation _) as [c |]; [eauto | congruence].
Qed.

Lemma active_has_conversation_witness :
  startup w0
  /\ exists c,
       currentConversation
         (self (after [OnInit true; EndConversation; StartListening] w0))
       = Some c.
Proof.
  split; [exact startup_w0 |].
  assert (H : isConversationActive
                (self (after [OnInit true; EndConversation; StartListening] w0))
              = true) by (vm_compute; reflexivity).
  pose proof (active_has_conversation
                [OnInit true; EndConversation; StartListening] w0 startup_w0 H)
    as Hc.
  exact Hc.
Defined.

(** X28: the statistics stay meaningful.  From startup on a store the
    component wrote, after any sequence of events, every score kept in the
    current conversation or in the history lies between 0 and 100, and so
    does the average shown for each of these conversations. *)
Theorem averages_always_in_range :
  forall (es : list Event) (w : World) (c : Conversation),
    startup w ->
    In c (conversationHistory (self (after es w)))
    \/ currentConversation (self (after es w)) = Some c ->
    scoresInRange c
    /\ exists average,
         result (getAveragePronunciationScore (Some c)) (after es w)
         = Normal average
         /\ (0 <= average <= 100)%Z.
Proof.
  intros es w c H Hc. destruct (reachable es w H) as [[_ _ _ Hs Hcur _ _] _].
  assert (Hr : scoresInRange c).
  { destruct Hc as [Hin | E].
    - rewrite Forall_forall in Hs. apply Hs, Hin.
    - rewrite E in Hcur. exact Hcur. }
  split; [exact Hr |].
  destruct (getAveragePronunciationScore_range c (after es w) Hr)
    as (a & Hrun & Ha).
  exists a. unfold result. rewrite Hrun. split; [reflexivity | exact Ha].
Qed.

Lemma averages_always_in_range_witness :
  startup w0
  /\ In sampleArchived (conversationHistory (self (after sampleSession w0)))
  /\ scoresInRange sampleArchived.
Proof.
  split; [exact startup_w0 |].
  assert (H : In sampleArchived
                (conversationHistory (self (after sampleSession w0))))
    by (vm_compute; left; reflexivity).
  split; [exact H |].
  pose proof (averages_always_in_range sampleSession w0 sampleArchived
                startup_w0 (or_introl H)) as Hr.
  destruct Hr as [Hr _]. exact Hr.
Defined.
